(** * Label Content Formatting Engine

    A shallow embedding of the text-processing core of the label creator
    (src/app.js, src/api/index.js): the parenthesis-aware ingredient
    splitter, the ingredient aggregator, the three label renderings, the
    identifier resolver and the preset search predicate.

    Strings are Stdlib [string]s.  A character is an [ascii]; the model reads
    it as an ASCII code unit, so the JavaScript primitives that depend on the
    character set ([trim], [\s], [toUpperCase], the caseless regular
    expression, the DOM text serializer) are given on ASCII, and bytes above
    127 are ordinary characters that are neither white space nor letters. *)

From Stdlib Require Import Strings.String Strings.Ascii Lists.List Bool.Bool.
From Stdlib Require Import Arith.Arith ZArith.ZArith Lia.
Import ListNotations.

Open Scope string_scope.
Open Scope list_scope.

(** ** JavaScript string primitives used by the program *)

Module Js.

(** White space as [String.prototype.trim] and the regular expression class
    [\s] see it, on ASCII: TAB, LF, VT, FF, CR and SPACE. *)
Definition isWhiteSpace (c : ascii) : bool :=
  let n := nat_of_ascii c in
  ((9 <=? n)%nat && (n <=? 13)%nat) || (n =? 32)%nat.

Definition isEmpty (s : string) : bool :=
  match s with
  | EmptyString => true
  | String _ _ => false
  end.

(** JavaScript truthiness of a string value: non-empty. *)
Definition truthy (s : string) : bool := negb (isEmpty s).

(** [a || b] on strings. *)
Definition orElse (a b : string) : string := if truthy a then a else b.

Fixpoint trimStart (s : string) : string :=
  match s with
  | EmptyString => EmptyString
  | String c r => if isWhiteSpace c then trimStart r else s
  end.

Fixpoint trimEnd (s : string) : string :=
  match s with
  | EmptyString => EmptyString
  | String c r =>
      let r' := trimEnd r in
      if isWhiteSpace c && isEmpty r' then EmptyString else String c r'
  end.

(** [s.trim()] *)
Definition trim (s : string) : string := trimEnd (trimStart s).

(** [s.split(",")]: the pieces between commas; never the empty list. *)
Fixpoint split_comma (s : string) : list string :=
  match s with
  | EmptyString => [EmptyString]
  | String c r =>
      if Ascii.eqb c "," then EmptyString :: split_comma r
      else match split_comma r with
           | [] => [String c EmptyString]
           | p :: ps => String c p :: ps
           end
  end.

(** [xs.join(sep)] *)
Fixpoint join (sep : string) (xs : list string) : string :=
  match xs with
  | [] => EmptyString
  | [x] => x
  | x :: rest => (x ++ sep ++ join sep rest)%string
  end.

(** [s.indexOf(c)] for a one-character needle: the position of the first
    occurrence, or -1. *)
Fixpoint indexOf (c : ascii) (s : string) : Z :=
  match s with
  | EmptyString => (-1)%Z
  | String d r =>
      if Ascii.eqb d c then 0%Z
      else let i := indexOf c r in
           if (i <? 0)%Z then (-1)%Z else (i + 1)%Z
  end.

Fixpoint take (n : nat) (s : string) : string :=
  match n, s with
  | O, _ => EmptyString
  | S _, EmptyString => EmptyString
  | S k, String c r => String c (take k r)
  end.

Fixpoint drop (n : nat) (s : string) : string :=
  match n, s with
  | O, _ => s
  | S _, EmptyString => EmptyString
  | S k, String _ r => drop k r
  end.

(** [s.substring(0, i)]: a negative end is clamped to 0. *)
Definition substring_to (i : Z) (s : string) : string := take (Z.to_nat i) s.

(** [s.substring(i)]: a negative start is clamped to 0. *)
Definition substring_from (i : Z) (s : string) : string := drop (Z.to_nat i) s.

Definition isLower (c : ascii) : bool :=
  let n := nat_of_ascii c in (97 <=? n)%nat && (n <=? 122)%nat.

Definition isUpper (c : ascii) : bool :=
  let n := nat_of_ascii c in (65 <=? n)%nat && (n <=? 90)%nat.

Definition upperChar (c : ascii) : ascii :=
  if isLower c then ascii_of_nat (nat_of_ascii c - 32) else c.

Definition lowerChar (c : ascii) : ascii :=
  if isUpper c then ascii_of_nat (nat_of_ascii c + 32) else c.

Fixpoint mapChars (f : ascii -> ascii) (s : string) : string :=
  match s with
  | EmptyString => EmptyString
  | String c r => String (f c) (mapChars f r)
  end.

(** [s.toUpperCase()] and [s.toLowerCase()] *)
Definition toUpperCase : string -> string := mapChars upperChar.
Definition toLowerCase : string -> string := mapChars lowerChar.

(** [s.replace(/\s+/g, " ")]: every maximal run of white space becomes one
    space.  [inRun] tells that the previous character was white space, so
    the run has already been replaced. *)
Fixpoint collapseFrom (inRun : bool) (s : string) : string :=
  match s with
  | EmptyString => EmptyString
  | String c r =>
      if isWhiteSpace c
      then (if inRun then collapseFrom true r
            else String " " (collapseFrom true r))
      else String c (collapseFrom false r)
  end.

Definition collapseWhiteSpace (s : string) : string := collapseFrom false s.

End Js.

(** ** The DOM text serializer behind [escapeHtml] *)

Module Dom.

(** What [innerHTML] gives back for a text node: the three markup characters
    are replaced by their entities (the fourth case of the serializer,
    U+00A0, lies outside ASCII). *)
Definition escapeChar (c : ascii) : string :=
  if Ascii.eqb c "&" then "&amp;"
  else if Ascii.eqb c "<" then "&lt;"
  else if Ascii.eqb c ">" then "&gt;"
  else String c EmptyString.

Fixpoint serializeText (s : string) : string :=
  match s with
  | EmptyString => EmptyString
  | String c r => (escapeChar c ++ serializeText r)%string
  end.

End Dom.

(** [escapeHtml(text)] (app.js): a detached [div] gets [text] as its
    [textContent] and its [innerHTML] is returned. *)
Definition escapeHtml (text : string) : string := Dom.serializeText text.

(** ** IngredientExpressionParser and [boldPresetNames]
    (app.js, [formatIngredientsWithBoldPresetNames]) *)

(** The three loop variables of the splitting loop. *)
Record SplitState : Type := mkSplit {
  parts : list string;
  current : string;
  parenDepth : Z
}.

Definition splitInit : SplitState := mkSplit [] "" 0.

(** One iteration of [for (const char of text)]. *)
Definition splitStep (st : SplitState) (char : ascii) : SplitState :=
  let d1 := if Ascii.eqb char "(" then (parenDepth st + 1)%Z else parenDepth st in
  let d2 := if Ascii.eqb char ")" then (d1 - 1)%Z else d1 in
  if Ascii.eqb char "," && (d2 =? 0)%Z
  then mkSplit (parts st ++ [Js.trim (current st)]) "" d2
  else mkSplit (parts st) (current st ++ String char "")%string d2.

Fixpoint splitLoop (text : string) (st : SplitState) : SplitState :=
  match text with
  | EmptyString => st
  | String char rest => splitLoop rest (splitStep st char)
  end.

(** The first half of [formatIngredientsWithBoldPresetNames]: the loop and
    the push of the last item, which happens only when it is not empty
    after trimming. *)
Definition splitTopLevel (text : string) : list string :=
  let st := splitLoop text splitInit in
  if Js.truthy (Js.trim (current st))
  then parts st ++ [Js.trim (current st)]
  else parts st.

(** The callback of [parts.map]. *)
Definition formatPart (part : string) : string :=
  let parenIndex := Js.indexOf "(" part in
  if (0 <? parenIndex)%Z
  then
    let name := Js.trim (Js.substring_to parenIndex part) in
    let rest := Js.substring_from parenIndex part in
    ("<strong>" ++ escapeHtml name ++ "</strong> " ++ rest)%string
  else ("<strong>" ++ escapeHtml part ++ "</strong>")%string.

Definition formatIngredientsWithBoldPresetNames (text : string) : string :=
  if Js.isEmpty text then ""
  else Js.join ", " (map formatPart (splitTopLevel text)).

(** [stripBracketsFromIngredients(text)] *)
Definition stripBracketsFromIngredients (text : string) : string :=
  if Js.isEmpty text then ""
  else Js.trim (Js.collapseWhiteSpace text).

(** ** IngredientAggregator (app.js, [parseIngredients],
    [collectAllIngredients], [buildFormattedLabelText]) *)

Record Preset : Type := mkPreset {
  preset_id : string;
  preset_name : string;
  preset_brandName : option string;
  preset_ingredients : list string
}.

(** The part of the application object the aggregator reads: the loaded
    presets ([this.presets]), the values of the checked preset checkboxes in
    document order (what [getSelectedPresets] collects) and the value of the
    additional-ingredients field. *)
Record Form : Type := mkForm {
  presets : list Preset;
  checkedPresetIds : list string;
  additionalIngredients : string
}.

Definition getSelectedPresets (app : Form) : list string :=
  checkedPresetIds app.

Definition getPresetById (app : Form) (id : string) : option Preset :=
  find (fun preset => String.eqb (preset_id preset) id) (presets app).

Definition nonEmpty (s : string) : bool := (0 <? String.length s)%nat.

Definition parseIngredients (text : string) : list string :=
  if Js.isEmpty text || Js.isEmpty (Js.trim text) then []
  else filter nonEmpty (map Js.trim (Js.split_comma text)).

(** The body of the [forEach] of [collectAllIngredients], on the array
    [allIngredients] built so far. *)
Definition collectStep (app : Form) (allIngredients : list string)
    (presetId : string) : list string :=
  match getPresetById app presetId with
  | Some preset =>
      if (0 <? List.length (preset_ingredients preset))%nat
      then allIngredients ++ preset_ingredients preset
      else allIngredients ++ [preset_name preset]
  | None => allIngredients
  end.

Definition collectAllIngredients (app : Form) : list string :=
  let allIngredients :=
    fold_left (collectStep app) (getSelectedPresets app) [] in
  let additionalText := Js.trim (additionalIngredients app) in
  if Js.truthy additionalText
  then allIngredients ++ parseIngredients additionalText
  else allIngredients.

(** The body of the [forEach] of [buildFormattedLabelText]. *)
Definition formatStep (app : Form) (parts : list string)
    (presetId : string) : list string :=
  match getPresetById app presetId with
  | Some preset =>
      if (0 <? List.length (preset_ingredients preset))%nat
      then
        let ingredientsList := Js.join ", " (preset_ingredients preset) in
        parts ++ [(preset_name preset ++ " (" ++ ingredientsList ++ ")")%string]
      else parts ++ [preset_name preset]
  | None => parts
  end.

Definition buildFormattedLabelText (app : Form) : string :=
  let parts := fold_left (formatStep app) (getSelectedPresets app) [] in
  let additionalText := Js.trim (additionalIngredients app) in
  let parts :=
    if Js.truthy additionalText
    then parts ++ parseIngredients additionalText
    else parts in
  Js.join ", " parts.

(** *** The aggregation as the specification words it *)

Record Aggregate : Type := mkAggregate {
  flatList : list string;
  canonicalExpression : string
}.

(** The selected presets, in selection order: the checked identifiers that
    name a loaded preset. *)
Definition selectedPresets (app : Form) : list Preset :=
  flat_map (fun id => match getPresetById app id with
                      | Some preset => [preset]
                      | None => []
                      end) (getSelectedPresets app).

Definition presetExpressionItem (preset : Preset) : string :=
  match preset_ingredients preset with
  | [] => preset_name preset
  | subs => (preset_name preset ++ " (" ++ Js.join ", " subs ++ ")")%string
  end.

Definition presetFlatItems (preset : Preset) : list string :=
  match preset_ingredients preset with
  | [] => [preset_name preset]
  | subs => subs
  end.

(** The trimmed non-empty comma-separated tokens of a text. *)
Definition additionalTokens (text : string) : list string :=
  filter (fun token => negb (Js.isEmpty token))
         (map Js.trim (Js.split_comma text)).

Definition aggregate (selected : list Preset) (additionalText : string)
    : Aggregate :=
  let expressionItems :=
    map presetExpressionItem selected ++ additionalTokens additionalText in
  mkAggregate
    (flat_map presetFlatItems selected ++ additionalTokens additionalText)
    (Js.join ", " expressionItems).

(** ** LabelRenderer (app.js, [buildFormattedLabelHtml],
    [buildFullLabelText]) *)

(** The properties of a label object the renderers read.  A string property
    that is missing reads as [undefined], which the renderers treat like the
    empty string (both are falsy), so it is modelled as [""]; a missing
    [allergens] array likewise as [[]].  [label_ingredientsText] is the
    fallback property [buildFormattedLabelHtml] consults when [text] is
    empty. *)
Record Label : Type := mkLabel {
  label_name : string;
  label_text : string;
  label_ingredientsText : string;
  label_allergens : list string;
  label_allergenDetails : string;
  label_businessName : string;
  label_businessAddress : string;
  label_businessCity : string;
  label_businessState : string;
  label_businessZip : string;
  label_businessPhone : string;
  label_netQuantity : string;
  label_netQuantityUnit : string;
  label_includeCottageDisclaimer : bool
}.

Module Style.

Definition sectionMargin : string := "margin-bottom: 8px;".
Definition fontFamily : string :=
  "font-family: 'Segoe UI', Tahoma, Geneva, Verdana, sans-serif;".
Definition largeFontSize : string := "font-size: 14pt;".
Definition smallFontSize : string := "font-size: 8pt;".

End Style.

Definition cottageSentence : string :=
  "MADE IN A COTTAGE FOOD OPERATION THAT IS NOT SUBJECT TO GOVERNMENT FOOD SAFETY INSPECTION".

(** *** Rich markup *)

(** The double-quote character of the HTML attributes. *)
Definition dquote : string := String (ascii_of_nat 34) EmptyString.

(** The opening tag [<tag style="...">] every section is wrapped in. *)
Definition openTag (tag style : string) : string :=
  ("<" ++ tag ++ " style=" ++ dquote ++ style ++ dquote ++ ">")%string.

Section RichMarkup.

Import Style.
Local Open Scope string_scope.
Variable label : Label.

Definition richCleanIngredients : string :=
  stripBracketsFromIngredients
    (Js.orElse (label_text label) (Js.orElse (label_ingredientsText label) "")).

Definition productNameHtml : string :=
  if Js.truthy (label_name label)
  then openTag "div"
         ("text-align: center; font-weight: 700; "
          ++ largeFontSize ++ " " ++ sectionMargin ++ " " ++ fontFamily)
       ++ escapeHtml (label_name label) ++ "</div>"
  else "".

Definition ingredientsHtml : string :=
  if Js.truthy richCleanIngredients
  then
    let formattedIngredients :=
      formatIngredientsWithBoldPresetNames richCleanIngredients in
    openTag "div"
      ("text-align: center; line-height: 1.6; "
       ++ sectionMargin ++ " " ++ smallFontSize ++ " " ++ fontFamily)
    ++ openTag "span" "text-decoration: underline; font-weight: 700;"
    ++ "Ingredients:</span> " ++ formattedIngredients ++ "</div>"
  else "".

(** [label.allergens.join(", ").toUpperCase()] *)
Definition richAllergenText : string :=
  Js.toUpperCase (Js.join ", " (label_allergens label)).

Definition allergenHtml : string :=
  if (0 <? List.length (label_allergens label))%nat
  then openTag "div"
         ("text-align: center; font-weight: 700; "
          ++ sectionMargin ++ " " ++ smallFontSize ++ " " ++ fontFamily)
       ++ "CONTAINS: " ++ escapeHtml richAllergenText ++ "</div>"
  else "".

Definition richAddressStr : string :=
  let addressStr := label_businessName label in
  let addressStr :=
    if Js.truthy (label_businessAddress label)
    then addressStr ++ " " ++ label_businessAddress label
    else addressStr in
  let cityStateZip :=
    Js.join ", "
      (filter Js.truthy
         [label_businessCity label; label_businessState label;
          label_businessZip label]) in
  if Js.truthy cityStateZip
  then addressStr ++ ", " ++ cityStateZip
  else addressStr.

Definition businessInfoHtml : string :=
  if Js.truthy (label_businessName label)
  then openTag "div"
         ("text-align: center; font-weight: 700; "
          ++ smallFontSize ++ " " ++ sectionMargin ++ " " ++ fontFamily)
       ++ escapeHtml richAddressStr ++ "</div>"
  else "".

Definition netQuantityHtml : string :=
  if Js.truthy (label_netQuantity label)
  then openTag "div"
         ("text-align: center; font-weight: 700; "
          ++ largeFontSize ++ " " ++ sectionMargin ++ " " ++ fontFamily)
       ++ "Net Wt. " ++ escapeHtml (label_netQuantity label) ++ " "
       ++ escapeHtml (Js.orElse (label_netQuantityUnit label) "oz") ++ "</div>"
  else "".

Definition cottageHtml : string :=
  if label_includeCottageDisclaimer label
  then openTag "div"
         ("text-align: center; font-weight: 700; "
          ++ smallFontSize
          ++ " text-transform: uppercase; letter-spacing: 0.3px; "
          ++ fontFamily)
       ++ cottageSentence ++ "</div>"
  else "".

Definition buildFormattedLabelHtml : string :=
  openTag "div"
    ("background: #ffffff; padding: 24px; " ++ fontFamily
     ++ " max-width: 500px; margin: 0 auto;")
  ++ productNameHtml ++ ingredientsHtml ++ allergenHtml ++ businessInfoHtml
  ++ netQuantityHtml ++ cottageHtml ++ "</div>".

End RichMarkup.

(** *** Plain text *)

Section PlainText.

Local Open Scope string_scope.
Variable label : Label.

Definition plainCleanIngredients : string :=
  stripBracketsFromIngredients (label_text label).

(** The text pushed for the allergen section. *)
Definition plainAllergenLine : string :=
  let allergenText := Js.join ", " (label_allergens label) in
  let allergenText :=
    if Js.truthy (label_allergenDetails label)
    then allergenText ++ " (" ++ label_allergenDetails label ++ ")"
    else allergenText in
  "CONTAINS: " ++ allergenText.

Definition plainAddressParts : string :=
  Js.join ", "
    (filter Js.truthy
       [label_businessName label; label_businessAddress label;
        label_businessCity label; label_businessState label;
        label_businessZip label; label_businessPhone label]).

Definition plainNetQuantityLine : string :=
  "Net Wt. " ++ label_netQuantity label ++ " "
  ++ Js.orElse (label_netQuantityUnit label) "oz".

(** The array [lines] after all the pushes. *)
Definition plainLines : list string :=
  let lines := @nil string in
  let lines :=
    if Js.truthy (label_name label)
    then (lines ++ [label_name label])%list else lines in
  let lines :=
    if Js.truthy plainCleanIngredients
    then (lines ++ [("Ingredients: " ++ plainCleanIngredients)%string])%list
    else lines in
  let lines :=
    if (0 <? List.length (label_allergens label))%nat
    then (lines ++ [plainAllergenLine])%list else lines in
  let lines :=
    if Js.truthy (label_businessName label)
    then (if Js.truthy plainAddressParts
          then (lines ++ [plainAddressParts])%list else lines)
    else lines in
  let lines :=
    if Js.truthy (label_netQuantity label)
    then (lines ++ [plainNetQuantityLine])%list else lines in
  let lines :=
    if label_includeCottageDisclaimer label
    then (lines ++ [cottageSentence])%list else lines in
  lines.

(** The line feed the lines are joined with. *)
Definition newline : string := String (ascii_of_nat 10) EmptyString.

Definition buildFullLabelText : string := Js.join newline plainLines.

End PlainText.

(** *** The three representations together.  The stored text of a label is
    its ingredient expression with white space normalized; the application
    has no single function for the triple, so [render] pairs the three. *)

Record Rendered : Type := mkRendered {
  storageText : string;
  richMarkup : string;
  plainText : string
}.

Definition render (label : Label) : Rendered :=
  mkRendered (stripBracketsFromIngredients (label_text label))
             (buildFormattedLabelHtml label)
             (buildFullLabelText label).

(** ** IdentifierResolver (api/index.js, [getPresetQuery]) *)

(** The database driver's [ObjectId]: twelve bytes, written as twenty-four
    lowercase hexadecimal digits. *)
Module ObjectId.

Definition hexValue (c : ascii) : option nat :=
  let n := nat_of_ascii c in
  if (48 <=? n)%nat && (n <=? 57)%nat then Some (n - 48)
  else if (97 <=? n)%nat && (n <=? 102)%nat then Some (n - 87)
  else if (65 <=? n)%nat && (n <=? 70)%nat then Some (n - 55)
  else None.

Definition isHexDigit (c : ascii) : bool :=
  match hexValue c with Some _ => true | None => false end.

(** The digit [toHexString] writes for a value below sixteen. *)
Definition hexDigit (v : nat) : ascii :=
  if (v <? 10)%nat then ascii_of_nat (48 + v) else ascii_of_nat (87 + v).

Fixpoint allChars (p : ascii -> bool) (s : string) : bool :=
  match s with
  | EmptyString => true
  | String c r => p c && allChars p r
  end.

Record t : Type := mk { bytes : list nat }.

(** Two digits make a byte; a digit that is not hexadecimal, or a digit
    left over, makes the conversion fail. *)
Fixpoint bytesFromHex (s : string) : option (list nat) :=
  match s with
  | EmptyString => Some []
  | String _ EmptyString => None
  | String hi (String lo r) =>
      match hexValue hi, hexValue lo, bytesFromHex r with
      | Some h, Some l, Some bs => Some ((16 * h + l) :: bs)
      | _, _, _ => None
      end
  end.

Fixpoint bytesOfChars (s : string) : list nat :=
  match s with
  | EmptyString => []
  | String c r => nat_of_ascii c :: bytesOfChars r
  end.

(** [new ObjectId(id)] for a string: twenty-four hexadecimal digits are
    decoded; a string of twelve characters is taken as the twelve bytes
    themselves (drivers before version 6; later ones reject it, which
    [getPresetQuery] cannot tell apart because of its comparison with
    [toString]); anything else throws, here [None]. *)
Definition construct (id : string) : option t :=
  if (String.length id =? 24)%nat && allChars isHexDigit id
  then match bytesFromHex id with
       | Some bs => Some (mk bs)
       | None => None
       end
  else if (String.length id =? 12)%nat then Some (mk (bytesOfChars id))
  else None.

(** [ObjectId.isValid(id)] *)
Definition isValid (id : string) : bool :=
  match construct id with Some _ => true | None => false end.

Fixpoint hexOfBytes (bs : list nat) : string :=
  match bs with
  | [] => EmptyString
  | b :: r => String (hexDigit (b / 16)) (String (hexDigit (b mod 16)) (hexOfBytes r))
  end.

(** [oid.toString()] *)
Definition toString (oid : t) : string := hexOfBytes (bytes oid).

End ObjectId.

(** The query document [getPresetQuery] returns: [{ _id: ObjectId }] or
    [{ id: string }]. *)
Inductive LookupKey : Type :=
| PrimaryKey (_id : ObjectId.t)
| LegacyKey (id : string).

(** The [try] block: [None] stands both for leaving the block without a
    [return] and for an exception, which the empty [catch] swallows. *)
Definition getPresetQuery_try (id : string) : option LookupKey :=
  if ObjectId.isValid id
  then match ObjectId.construct id with
       | Some oid =>
           if String.eqb (ObjectId.toString oid) id
           then match ObjectId.construct id with
                | Some oid' => Some (PrimaryKey oid')
                | None => None
                end
           else None
       | None => None
       end
  else None.

Definition getPresetQuery (id : string) : LookupKey :=
  match getPresetQuery_try id with
  | Some query => query
  | None => LegacyKey id
  end.

(** ** PresetSearchMatcher (api/index.js, [GET /api/presets/search]) *)

(** The database's [$regex] operator with option [i], on the patterns the
    model covers: ordinary characters, which stand for themselves in either
    case, and the dot, which stands for any character but a line feed.  A
    pattern with any other regular-expression operator is outside the model
    ([compile] gives [None]). *)
Module Regex.

Inductive atom : Type :=
| Lit (c : ascii)
| AnyChar.

Definition isOperator (c : ascii) : bool :=
  existsb (Ascii.eqb c)
    ["\"; "^"; "$"; "|"; "?"; "*"; "+"; "("; ")"; "["; "]"; "{"; "}"]%char.

Fixpoint compile (pattern : string) : option (list atom) :=
  match pattern with
  | EmptyString => Some []
  | String c r =>
      if isOperator c then None
      else match compile r with
           | Some atoms =>
               Some ((if Ascii.eqb c "." then AnyChar else Lit c) :: atoms)
           | None => None
           end
  end.

Definition atomMatches (a : atom) (c : ascii) : bool :=
  match a with
  | Lit d => Ascii.eqb (Js.lowerChar d) (Js.lowerChar c)
  | AnyChar => negb (Ascii.eqb c (ascii_of_nat 10))
  end.

(** The character [c] occurs in the pattern. *)
Fixpoint contains (c : ascii) (pattern : string) : bool :=
  match pattern with
  | EmptyString => false
  | String d r => Ascii.eqb d c || contains c r
  end.

(** A pattern the store refuses to compile: it opens a group and holds no
    closing parenthesis (and neither a backslash nor a bracket, which could
    make the parenthesis an ordinary character). *)
Definition rejected (pattern : string) : bool :=
  contains "(" pattern && negb (contains ")" pattern)
  && negb (contains "\" pattern) && negb (contains "[" pattern).

(** The atoms match a prefix of the subject. *)
Fixpoint matchesHere (atoms : list atom) (subject : string) : bool :=
  match atoms, subject with
  | [], _ => true
  | _ :: _, EmptyString => false
  | a :: atoms', String c r => atomMatches a c && matchesHere atoms' r
  end.

(** The atoms match somewhere in the subject (the search is not anchored). *)
Fixpoint test (atoms : list atom) (subject : string) : bool :=
  matchesHere atoms subject
  || match subject with
     | EmptyString => false
     | String _ r => test atoms r
     end.

End Regex.

(** The filter document of the handler,
    [{ $or: [{ name: regex }, { brandName: regex }, { ingredients: regex }] }],
    on one stored preset: a missing [brandName] matches nothing, and the
    array field matches when one of its elements does. *)
Definition presetMatchesRegex (regex : list Regex.atom) (preset : Preset)
    : bool :=
  Regex.test regex (preset_name preset)
  || match preset_brandName preset with
     | Some brand => Regex.test regex brand
     | None => false
     end
  || existsb (Regex.test regex) (preset_ingredients preset).

(** What the handler does with a request: it answers with a result, or the
    store throws and the [catch] answers with status 500, or the pattern is
    a regular expression outside the model. *)
Inductive Outcome (A : Type) : Type :=
| Returned (result : A)
| ServerError
| NotModelled.

Arguments Returned {A}.
Arguments ServerError {A}.
Arguments NotModelled {A}.

(** Whether the handler returns [preset] for the query parameter [q]. *)
Definition searchMatches (preset : Preset) (q : string) : Outcome bool :=
  let query := Js.orElse q "" in
  if negb (Js.truthy (Js.trim query)) then Returned true
  else if Regex.rejected (Js.trim query) then ServerError
  else match Regex.compile (Js.trim query) with
       | Some regex => Returned (presetMatchesRegex regex preset)
       | None => NotModelled
       end.

(** The presets the handler sends back, in the order of the collection. *)
Definition searchPresets (collection : list Preset) (q : string)
    : Outcome (list Preset) :=
  let query := Js.orElse q "" in
  if negb (Js.truthy (Js.trim query)) then Returned collection
  else if Regex.rejected (Js.trim query) then ServerError
  else match Regex.compile (Js.trim query) with
       | Some regex => Returned (filter (presetMatchesRegex regex) collection)
       | None => NotModelled
       end.

(** Two labels to run the renderers on: a complete one, and one whose
    ingredient expression sits in [ingredientsText] only. *)
Definition sampleLabel : Label :=
  mkLabel "Cookies" "Spices (Cinnamon,  Nutmeg), Butter" "" ["Milk"; "Wheat"]
          "may contain nuts" "Acme" "1 Main St" "Town" "CA" "90000" "555"
          "12" "" true.

Definition fallbackLabel : Label :=
  mkLabel "" "" "Flour" [] "" "" "" "" "" "" "" "" "" false.

(** ** Vocabulary of the specification *)

(** The character [c] occurs in [s]. *)
Fixpoint occurs (c : ascii) (s : string) : bool :=
  match s with
  | EmptyString => false
  | String d r => Ascii.eqb d c || occurs c r
  end.

(** *** Top-level splitting as the specification words it *)

(** The nesting depth after reading [c] at depth [depth]. *)
Definition depthAfter (depth : Z) (c : ascii) : Z :=
  let d1 := if Ascii.eqb c "(" then (depth + 1)%Z else depth in
  if Ascii.eqb c ")" then (d1 - 1)%Z else d1.

(** The pieces of [s] between the commas found at depth zero, when the
    reading starts at depth [depth]; never the empty list. *)
Fixpoint pieces (depth : Z) (s : string) : list string :=
  match s with
  | EmptyString => [EmptyString]
  | String c r =>
      let depth' := depthAfter depth c in
      if Ascii.eqb c "," && (depth' =? 0)%Z
      then EmptyString :: pieces depth' r
      else match pieces depth' r with
           | [] => [String c EmptyString]
           | p :: ps => String c p :: ps
           end
  end.

(** Split on the commas at depth zero, trim every item, drop the items that
    are empty. *)
Definition splitTopLevelSpec (expr : string) : list string :=
  filter (fun item => negb (Js.isEmpty item)) (map Js.trim (pieces 0 expr)).

(** No comma of [s] is met at depth zero when the reading starts at depth
    [depth]. *)
Fixpoint noTopComma (depth : Z) (s : string) : bool :=
  match s with
  | EmptyString => true
  | String c r =>
      let depth' := depthAfter depth c in
      negb (Ascii.eqb c "," && (depth' =? 0)%Z) && noTopComma depth' r
  end.

(** The depth at the end of [s]. *)
Fixpoint endDepth (depth : Z) (s : string) : Z :=
  match s with
  | EmptyString => depth
  | String c r => endDepth (depthAfter depth c) r
  end.

(** A list of top-level items: no item has a comma at depth zero, and every
    item but the last ends at depth zero. *)
Fixpoint pieceList (depth : Z) (ps : list string) : Prop :=
  match ps with
  | [] => False
  | p :: rest =>
      noTopComma depth p = true
      /\ match rest with
         | [] => True
         | _ :: _ => endDepth depth p = 0%Z /\ pieceList 0 rest
         end
  end.

(** [cur] put in front of the first piece. *)
Definition glue (cur : string) (ps : list string) : list string :=
  match ps with
  | [] => [cur]
  | p :: rest => (cur ++ p)%string :: rest
  end.

(** The items of a joined list, as the splitter meets them again: all but
    the first come with the space of the separator in front. *)
Definition spaced (lead : bool) (items : list string) : list string :=
  match items with
  | [] => []
  | x :: rest =>
      (if lead then String " " x else x) :: map (String " ") rest
  end.

(** The parentheses of [s] are balanced when read from depth [depth]: the
    depth never goes below zero and ends at zero. *)
Fixpoint balancedFrom (depth : nat) (s : string) : bool :=
  match s with
  | EmptyString => Nat.eqb depth 0
  | String c r =>
      if Ascii.eqb c "(" then balancedFrom (S depth) r
      else if Ascii.eqb c ")"
           then match depth with
                | O => false
                | S d => balancedFrom d r
                end
           else balancedFrom depth r
  end.

Definition balanced (s : string) : bool := balancedFrom 0 s.


(** [needle] is a substring of [hay]. *)
Definition isSubstring (needle hay : string) : Prop :=
  exists before after : string, hay = (before ++ needle ++ after)%string.

(** [q] is a substring of [s] when case is ignored. *)
Definition substringIgnoringCase (q s : string) : Prop :=
  isSubstring (Js.toLowerCase q) (Js.toLowerCase s).

(** The decision procedure for [isSubstring]. *)
Fixpoint startsWith (needle hay : string) : bool :=
  match needle, hay with
  | EmptyString, _ => true
  | String _ _, EmptyString => false
  | String a n, String b h => Ascii.eqb a b && startsWith n h
  end.

Fixpoint includes (needle hay : string) : bool :=
  startsWith needle hay
  || match hay with
     | EmptyString => false
     | String _ r => includes needle r
     end.

(** The search predicate in the words of the specification: the query is a
    case-insensitive substring of the name, of the brand name when there is
    one, or of an ingredient. *)
Definition matchesAnyField (preset : Preset) (q : string) : Prop :=
  substringIgnoringCase q (preset_name preset)
  \/ (exists brand, preset_brandName preset = Some brand
                    /\ substringIgnoringCase q brand)
  \/ (exists ingredient, In ingredient (preset_ingredients preset)
                         /\ substringIgnoringCase q ingredient).

(** The decision procedure for [matchesAnyField]. *)
Definition includesIgnoringCase (q s : string) : bool :=
  includes (Js.toLowerCase q) (Js.toLowerCase s).

Definition matchesAnyFieldb (preset : Preset) (q : string) : bool :=
  includesIgnoringCase q (preset_name preset)
  || match preset_brandName preset with
     | Some brand => includesIgnoringCase q brand
     | None => false
     end
  || existsb (includesIgnoringCase q) (preset_ingredients preset).

(** The pattern that asks for the characters of [q] themselves. *)
Fixpoint literalPattern (q : string) : list Regex.atom :=
  match q with
  | EmptyString => []
  | String c r => Regex.Lit c :: literalPattern r
  end.

(** A query that uses no regular-expression syntax at all. *)
Definition plainQuery (q : string) : bool :=
  ObjectId.allChars
    (fun c => negb (Regex.isOperator c) && negb (Ascii.eqb c ".")) q.

(** A lowercase hexadecimal digit, [0-9a-f]. *)
Definition isLowerHexDigit (c : ascii) : bool :=
  let n := nat_of_ascii c in
  ((48 <=? n)%nat && (n <=? 57)%nat) || ((97 <=? n)%nat && (n <=? 102)%nat).

(** An identifier in the store's own format: twenty-four lowercase
    hexadecimal digits. *)
Definition isStoreGeneratedId (id : string) : bool :=
  (String.length id =? 24)%nat && ObjectId.allChars isLowerHexDigit id.

(** The six sections of a label, in the order both renderers emit them. *)
Inductive LabelSection : Type :=
| ProductName
| IngredientsLine
| AllergenLine
| BusinessLine
| NetQuantityLine
| CottageLine.

Definition sectionOrder : list LabelSection :=
  [ProductName; IngredientsLine; AllergenLine; BusinessLine;
   NetQuantityLine; CottageLine].

(** The data that backs a section is there. *)
Definition backingPresent (label : Label) (s : LabelSection) : bool :=
  match s with
  | ProductName => Js.truthy (label_name label)
  | IngredientsLine =>
      Js.truthy (stripBracketsFromIngredients (label_text label))
  | AllergenLine => negb (Nat.eqb (List.length (label_allergens label)) 0)
  | BusinessLine => Js.truthy (label_businessName label)
  | NetQuantityLine => Js.truthy (label_netQuantity label)
  | CottageLine => label_includeCottageDisclaimer label
  end.

(** The markup of a section in the rich rendering; empty when omitted. *)
Definition richSection (label : Label) (s : LabelSection) : string :=
  match s with
  | ProductName => productNameHtml label
  | IngredientsLine => ingredientsHtml label
  | AllergenLine => allergenHtml label
  | BusinessLine => businessInfoHtml label
  | NetQuantityLine => netQuantityHtml label
  | CottageLine => cottageHtml label
  end.

(** The line of a section in the plain rendering: the field values as they
    are, with neither markup nor escaping. *)
Definition plainSection (label : Label) (s : LabelSection) : string :=
  match s with
  | ProductName => label_name label
  | IngredientsLine =>
      ("Ingredients: " ++ stripBracketsFromIngredients (label_text label))%string
  | AllergenLine => plainAllergenLine label
  | BusinessLine => plainAddressParts label
  | NetQuantityLine => plainNetQuantityLine label
  | CottageLine => cottageSentence
  end.



(** ** Further vocabulary *)







(** Every white-space character of [s] is a space that does not follow
    another one; [afterSpace] tells that the character before [s] was a
    space. *)
Fixpoint spacesSingle (afterSpace : bool) (s : string) : bool :=
  match s with
  | EmptyString => true
  | String c r =>
      if Js.isWhiteSpace c
      then Ascii.eqb c " " && negb afterSpace && spacesSingle true r
      else spacesSingle false r
  end.

(** ** The ingredient form (app.js, [validatePresetForm],
    [handlePresetSubmit], [editPreset]) *)

(** The values of the three fields of the ingredient form. *)
Record PresetForm : Type := mkPresetForm {
  presetName : string;
  presetBrandName : string;
  presetIngredients : string
}.

(** What [handlePresetSubmit] sends to [createPreset] or [updatePreset]. *)
Record PresetData : Type := mkPresetData {
  data_name : string;
  data_brandName : string;
  data_ingredients : list string
}.

(** [validatePresetForm]: only the name is required. *)
Definition validatePresetForm (form : PresetForm) : bool :=
  let name := Js.trim (presetName form) in
  if String.eqb name "" then false else true.

(** [handlePresetSubmit], up to the call of the server: nothing is sent
    when the form is not valid. *)
Definition handlePresetSubmit (form : PresetForm) : option PresetData :=
  if negb (validatePresetForm form) then None
  else
    let name := Js.trim (presetName form) in
    let brandName := Js.trim (presetBrandName form) in
    let ingredientsText := Js.trim (presetIngredients form) in
    let ingredients := parseIngredients ingredientsText in
    Some (mkPresetData name brandName ingredients).

(** [editPreset]: the values the form is filled with. *)
Definition editPreset (preset : Preset) : PresetForm :=
  mkPresetForm (preset_name preset)
               (match preset_brandName preset with
                | Some brand => Js.orElse brand ""
                | None => ""
                end)
               (Js.join ", " (preset_ingredients preset)).

(** [s] has no parenthesis. *)
Definition parenFree (s : string) : bool :=
  negb (occurs "(" s) && negb (occurs ")" s).

(** A preset name that can stand as a top-level item: trimmed, not empty,
    without comma or parenthesis. *)
Definition plainName (n : string) : Prop :=
  Js.trim n = n /\ n <> "" /\ occurs "," n = false /\ parenFree n = true.

(** The checked identifiers that name a loaded preset. *)
Definition loadedIds (app : Form) : list string :=
  filter (fun id => match getPresetById app id with
                    | Some _ => true
                    | None => false
                    end) (getSelectedPresets app).

(** The markup [formatIngredientsWithBoldPresetNames] is meant to give for
    a preset: the name emphasized, the sub-ingredients after it as they
    are. *)
Definition presetMarkup (preset : Preset) : string :=
  match preset_ingredients preset with
  | [] => ("<strong>" ++ escapeHtml (preset_name preset) ++ "</strong>")%string
  | subs =>
      ("<strong>" ++ escapeHtml (preset_name preset) ++ "</strong> ("
       ++ Js.join ", " subs ++ ")")%string
  end.

Definition tokenMarkup (token : string) : string :=
  ("<strong>" ++ escapeHtml token ++ "</strong>")%string.

(** A selection whose names can stand as top-level items and whose
    sub-ingredients and additional tokens have no parenthesis. *)
Definition plainSelection (app : Form) : Prop :=
  (forall preset, In preset (selectedPresets app) ->
     plainName (preset_name preset)
     /\ forall sub, In sub (preset_ingredients preset) -> parenFree sub = true)
  /\ (forall token, In token (additionalTokens (additionalIngredients app)) ->
        parenFree token = true).

(** A form to run the aggregation on. *)
Definition sampleForm : Form :=
  mkForm [mkPreset "p1" "Spices" None ["Cinnamon"; "Nutmeg"];
          mkPreset "p2" "Eggs" None []]
         ["p1"; "p2"] "Vanilla, Salt".

(** An item the splitter gives back whole: trimmed, not empty, without a
    comma at depth zero, closed at depth zero. *)
Definition wholeItem (x : string) : Prop :=
  Js.trim x = x /\ x <> "" /\ noTopComma 0 x = true /\ endDepth 0 x = 0%Z.

(** ** The label form (app.js, [validateForm], [handleSubmit]) *)

(** The element an error message is written to. *)
Inductive ErrorField : Type :=
| NameError
| TextError
| PresetSelectError.

(** [validateForm] returns [true], here [Valid], or writes a message and
    returns [false]. *)
Inductive Validation : Type :=
| Valid
| Invalid (field : ErrorField) (message : string).

(** The values [validateForm] and [handleSubmit] read: the creation mode,
    the name and text fields, and what the aggregator reads. *)
Record LabelForm : Type := mkLabelForm {
  creationMode : string;
  labelName : string;
  labelText : string;
  ingredientForm : Form
}.

Definition validateForm (form : LabelForm) : Validation :=
  let mode := creationMode form in
  let labelName := Js.trim (labelName form) in
  if String.eqb labelName "" then
    Invalid NameError "Label name is required"
  else if (String.length labelName <? 2)%nat then
    Invalid NameError "Label name must be at least 2 characters"
  else if String.eqb mode "manual" then
    let text := Js.trim (labelText form) in
    if String.eqb text "" then
      Invalid TextError "Label text is required"
    else if (String.length text <? 2)%nat then
      Invalid TextError "Label text must be at least 2 characters"
    else Valid
  else if String.eqb mode "preset" then
    let allIngredients := collectAllIngredients (ingredientForm form) in
    if (List.length allIngredients =? 0)%nat then
      Invalid PresetSelectError
        "Please select at least one ingredient or add ingredients manually"
    else Valid
  else Valid.

(** The label object [handleSubmit] sends to the server; [F] is the type of
    the FDA fields, which [collectFDAData] gathers and [handleSubmit]
    spreads into the object as they are (the color, a constant, is left
    out). *)
Record LabelData (F : Type) : Type := mkLabelData {
  sent_name : string;
  sent_text : string;
  sent_creationMode : string;
  sent_selectedPresetIds : list string;
  sent_additionalIngredientsText : string;
  sent_ingredients : list string;
  sent_fdaData : F
}.

Arguments mkLabelData {F}.
Arguments sent_name {F}.
Arguments sent_text {F}.
Arguments sent_creationMode {F}.
Arguments sent_selectedPresetIds {F}.
Arguments sent_additionalIngredientsText {F}.
Arguments sent_ingredients {F}.
Arguments sent_fdaData {F}.

Section HandleSubmit.

Context {F : Type}.
Variable fdaData : F.
Variable form : LabelForm.

Definition presetLabelData : LabelData F :=
  let app := ingredientForm form in
  mkLabelData (Js.trim (labelName form))
              (buildFormattedLabelText app)
              "preset"
              (getSelectedPresets app)
              (Js.trim (additionalIngredients app))
              (collectAllIngredients app)
              fdaData.

Definition manualLabelData : LabelData F :=
  mkLabelData (Js.trim (labelName form))
              (Js.trim (labelText form))
              "manual" [] "" [] fdaData.

(** [handleSubmit], up to the call of the server: the label object that is
    sent, or [None] when nothing is.  [editing] tells that a label is being
    edited ([this.editingLabelId] is set). *)
Definition handleSubmit (editing : bool) : option (LabelData F) :=
  match validateForm form with
  | Invalid _ _ => None
  | Valid =>
      let mode := creationMode form in
      if editing then
        if String.eqb mode "preset" then Some presetLabelData
        else Some manualLabelData
      else
        if String.eqb mode "manual" then Some manualLabelData
        else if String.eqb mode "preset" then
          if (0 <? List.length (collectAllIngredients (ingredientForm form)))%nat
          then Some presetLabelData
          else None
        else None
  end.

End HandleSubmit.

(** The same label with another ingredient text. *)
Definition withText (text : string) (l : Label) : Label :=
  mkLabel (label_name l) text (label_ingredientsText l)
          (label_allergens l) (label_allergenDetails l) (label_businessName l)
          (label_businessAddress l) (label_businessCity l)
          (label_businessState l) (label_businessZip l)
          (label_businessPhone l) (label_netQuantity l)
          (label_netQuantityUnit l) (label_includeCottageDisclaimer l).

(** ** The preset checkboxes (app.js, [getSelectedPresets],
    [setSelectedPresets], [renderPresetCheckboxes]) *)

Module Panel.

(** A checkbox of the selection panel: its value, a preset identifier, and
    whether it is checked. *)
Record Checkbox : Type := mkCheckbox {
  value : string;
  checked : bool
}.

(** What the panel is rendered from: the loaded presets, the results of the
    search in the panel ([None] for JavaScript's [null], no search active),
    and the checkboxes in document order. *)
Record t : Type := mk {
  presets : list Preset;
  ingredientSelectSearchResults : option (list Preset);
  checkboxes : list Checkbox
}.

(** [getSelectedPresets]: the values of the checked boxes, in document
    order. *)
Definition getSelectedPresets (boxes : list Checkbox) : list string :=
  map value (filter checked boxes).

(** [Array.prototype.includes] and [Set.prototype.has] on identifiers. *)
Definition includes (ids : list string) (id : string) : bool :=
  existsb (String.eqb id) ids.

(** [setSelectedPresets(selectedPresetIds)] *)
Definition setSelectedPresets (selectedPresetIds : list string)
    (boxes : list Checkbox) : list Checkbox :=
  map (fun cb => mkCheckbox (value cb) (includes selectedPresetIds (value cb)))
      boxes.

(** The presets [renderPresetCheckboxes] makes boxes for: none when no
    preset is loaded, else the search results when a search is active, else
    all the presets. *)
Definition presetsToDisplay (panel : t) : list Preset :=
  match presets panel with
  | [] => []
  | _ :: _ =>
      match ingredientSelectSearchResults panel with
      | Some results => results
      | None => presets panel
      end
  end.

(** [renderPresetCheckboxes]: the boxes are made anew, and a box is checked
    when its preset was selected before. *)
Definition renderPresetCheckboxes (panel : t) : t :=
  let previouslySelected := getSelectedPresets (checkboxes panel) in
  mk (presets panel) (ingredientSelectSearchResults panel)
     (map (fun preset =>
             mkCheckbox (preset_id preset)
                        (includes previouslySelected (preset_id preset)))
          (presetsToDisplay panel)).

End Panel.

(** ** The preset endpoints of the server (api/index.js, [stripMongoId],
    [POST /api/presets], [DELETE /api/presets/:id]) *)

Module Server.

(** The JSON values a property of a stored document or of a request body
    holds, as far as the endpoints look at them. *)
Inductive Value : Type :=
| VString (s : string)
| VStrings (items : list string)
| VBool (b : bool).

(** A JavaScript object: its properties by name, [None] for a property that
    is not there. *)
Definition Object : Type := string -> option Value.

Definition empty : Object := fun _ => None.

(** [{ ...o, key: v }] *)
Definition set (key : string) (v : Value) (o : Object) : Object :=
  fun k => if String.eqb k key then Some v else o k.

(** [{ ...a, ...b }]: the properties of [b] win. *)
Definition spread (a b : Object) : Object :=
  fun k => match b k with
           | Some v => Some v
           | None => a k
           end.

(** [v || d]: the empty string, [false] and a missing property give way to
    the default. *)
Definition orDefault (v : option Value) (d : Value) : Value :=
  match v with
  | Some (VString EmptyString) => d
  | Some (VBool false) => d
  | Some w => w
  | None => d
  end.

(** A stored document: the [_id] the store gave it and its other
    properties. *)
Record Document : Type := mkDocument {
  _id : ObjectId.t;
  rest : Object
}.

(** [stripMongoId(doc)] for a document that is there:
    [{ id: _id.toString(), ...rest }]. *)
Definition stripMongoId (doc : Document) : Object :=
  spread (set "id" (VString (ObjectId.toString (_id doc))) empty) (rest doc).

Fixpoint bytes_eqb (a b : list nat) : bool :=
  match a, b with
  | [], [] => true
  | x :: a', y :: b' => Nat.eqb x y && bytes_eqb a' b'
  | _, _ => false
  end.

(** How the store matches a query of [getPresetQuery] against a document:
    [{ _id: oid }] by equality of the identifier, [{ id: s }] by equality
    with the [id] property, or membership when that property is an array. *)
Definition matchesQuery (query : LookupKey) (doc : Document) : bool :=
  match query with
  | PrimaryKey oid => bytes_eqb (ObjectId.bytes oid) (ObjectId.bytes (_id doc))
  | LegacyKey s =>
      match rest doc "id" with
      | Some (VString t) => String.eqb t s
      | Some (VStrings items) => existsb (String.eqb s) items
      | _ => false
      end
  end.

(** [deleteOne(query)]: the first matching document is removed; the count
    of removed documents comes with the collection. *)
Fixpoint deleteOne (query : LookupKey) (collection : list Document)
    : nat * list Document :=
  match collection with
  | [] => (0, [])
  | doc :: others =>
      if matchesQuery query doc then (1, others)
      else let (n, others') := deleteOne query others in (n, doc :: others')
  end.

(** The answers of the endpoints. *)
Inductive Response : Type :=
| Created (body : Object)
| Success
| NotFound.

(** [POST /api/presets]: [insertedId] is the identifier the store gives the
    new document and [now] the time stamp. *)
Definition postPreset (input : Object) (insertedId : ObjectId.t)
    (now : string) (collection : list Document)
    : Response * list Document :=
  let preset :=
    set "createdAt" (VString now)
      (set "ingredients" (orDefault (input "ingredients") (VStrings []))
         (set "brandName" (orDefault (input "brandName") (VString ""))
            (set "name" (orDefault (input "name") (VString "")) empty))) in
  let doc := mkDocument insertedId preset in
  (Created (stripMongoId doc), collection ++ [doc]).

(** [DELETE /api/presets/:id] *)
Definition deletePreset (id : string) (collection : list Document)
    : Response * list Document :=
  let query := getPresetQuery id in
  match deleteOne query collection with
  | (O, _) => (NotFound, collection)
  | (S _, collection') => (Success, collection')
  end.

(** The identifier a document is served under: the [id] property of
    [stripMongoId(doc)], when it is a string. *)
Definition servedId (doc : Document) : option string :=
  match stripMongoId doc "id" with
  | Some (VString s) => Some s
  | _ => None
  end.

(** An identifier as the store makes them: twelve bytes. *)
Definition wellFormed (oid : ObjectId.t) : Prop :=
  List.length (ObjectId.bytes oid) = 12%nat
  /\ Forall (fun b => (b < 256)%nat) (ObjectId.bytes oid).

End Server.

(** ** The loaded presets (app.js, [updatePreset], [deletePreset]) *)

(** [xs.findIndex(p)]: the position of the first element that satisfies
    [p], or -1. *)
Fixpoint findIndex {A : Type} (p : A -> bool) (xs : list A) : Z :=
  match xs with
  | [] => (-1)%Z
  | x :: rest =>
      if p x then 0%Z
      else let i := findIndex p rest in
           if (i <? 0)%Z then (-1)%Z else (i + 1)%Z
  end.

(** [xs.splice(index, 1)], for the array that is left. *)
Definition spliceOne {A : Type} (index : nat) (xs : list A) : list A :=
  firstn index xs ++ skipn (S index) xs.

(** [xs[index] = v] for an index inside the array. *)
Definition assignAt {A : Type} (index : nat) (v : A) (xs : list A) : list A :=
  firstn index xs ++ v :: skipn (S index) xs.

(** [deletePreset(id)] on [this.presets], once the server has answered:
    [serverOk] is false when the request failed, and then nothing is
    removed. *)
Definition deletePreset (serverOk : bool) (id : string)
    (presets : list Preset) : list Preset :=
  if negb serverOk then presets
  else
    let index := findIndex (fun preset => String.eqb (preset_id preset) id)
                           presets in
    if (index =? -1)%Z then presets
    else spliceOne (Z.to_nat index) presets.

(** [updatePreset(id, updatedData)] on [this.presets]: [answer] is the
    preset the server sent back, [None] when the request failed or the
    answer was empty. *)
Definition updatePreset (answer : option Preset) (id : string)
    (presets : list Preset) : list Preset :=
  match answer with
  | None => presets
  | Some updatedPreset =>
      let index := findIndex (fun preset => String.eqb (preset_id preset) id)
                             presets in
      if (index =? -1)%Z then presets
      else assignAt (Z.to_nat index) updatedPreset presets
  end.

(** The form with other loaded presets. *)
Definition withPresets (ps : list Preset) (app : Form) : Form :=
  mkForm ps (checkedPresetIds app) (additionalIngredients app).

(** * Properties *)

(** ** Strings *)

(** Case analysis on the 256 characters. *)
Ltac each_ascii c :=
  destruct c as [[] [] [] [] [] [] [] []].


Lemma str_app_nil_r (s : string) : (s ++ "")%string = s.
Proof. induction s as [|c r IH]; simpl; [reflexivity | now rewrite IH]. Qed.

Lemma str_app_assoc (a b c : string) :
  ((a ++ b) ++ c)%string = (a ++ (b ++ c))%string.
Proof. induction a as [|x r IH]; simpl; [reflexivity | now rewrite IH]. Qed.


Lemma join_cons2 (sep x y : string) (rest : list string) :
  Js.join sep (x :: y :: rest) = (x ++ sep ++ Js.join sep (y :: rest))%string.
Proof. reflexivity. Qed.

Lemma isEmpty_true (s : string) : Js.isEmpty s = true <-> s = "".
Proof. destruct s; simpl; split; congruence. Qed.

Lemma isEmpty_false (s : string) : Js.isEmpty s = false <-> s <> "".
Proof. destruct s; simpl; split; congruence. Qed.

Lemma nonEmpty_isEmpty (s : string) : nonEmpty s = negb (Js.isEmpty s).
Proof. destruct s; reflexivity. Qed.

Lemma comma_not_space : Js.isWhiteSpace "," = false.
Proof. reflexivity. Qed.

Lemma eqb_comma_not_space (c : ascii) :
  Js.isWhiteSpace c = true -> Ascii.eqb c "," = false.
Proof.
  intros H. destruct (Ascii.eqb_spec c ","%char) as [->|]; [|reflexivity].
  discriminate H.
Qed.

(** ** Trimming *)

Lemma trimStart_idem (s : string) : Js.trimStart (Js.trimStart s) = Js.trimStart s.
Proof.
  induction s as [|c r IH]; simpl; [reflexivity|].
  destruct (Js.isWhiteSpace c) eqn:E; [exact IH|].
  simpl. now rewrite E.
Qed.

Lemma trimEnd_idem (s : string) : Js.trimEnd (Js.trimEnd s) = Js.trimEnd s.
Proof.
  induction s as [|c r IH]; simpl; [reflexivity|].
  destruct (Js.isWhiteSpace c && Js.isEmpty (Js.trimEnd r)) eqn:E;
    [reflexivity|].
  simpl. rewrite IH, E. reflexivity.
Qed.

Lemma trim_comm (s : string) :
  Js.trimEnd (Js.trimStart s) = Js.trimStart (Js.trimEnd s).
Proof.
  induction s as [|c r IH]; simpl; [reflexivity|].
  destruct (Js.isWhiteSpace c) eqn:E; simpl.
  - rewrite IH. destruct (Js.isEmpty (Js.trimEnd r)) eqn:F; simpl.
    + apply isEmpty_true in F. now rewrite F.
    + now rewrite E.
  - now rewrite E.
Qed.

Lemma trim_idem (s : string) : Js.trim (Js.trim s) = Js.trim s.
Proof.
  unfold Js.trim.
  rewrite <- (trim_comm (Js.trimStart s)), trimStart_idem.
  apply trimEnd_idem.
Qed.

Lemma trim_space_cons (c : ascii) (s : string) :
  Js.isWhiteSpace c = true -> Js.trim (String c s) = Js.trim s.
Proof. intros H. unfold Js.trim. simpl. now rewrite H. Qed.

Lemma trimEnd_cons_congr (c : ascii) (a b : string) :
  Js.trimEnd a = Js.trimEnd b ->
  Js.trimEnd (String c a) = Js.trimEnd (String c b).
Proof. intros H. simpl. now rewrite H. Qed.

Lemma trim_of_trimEnd_eq (a b : string) :
  Js.trimEnd a = Js.trimEnd b -> Js.trim a = Js.trim b.
Proof. intros H. unfold Js.trim. now rewrite !trim_comm, H. Qed.

(** ** Splitting on commas *)

Lemma split_comma_cons (s : string) :
  exists p ps, Js.split_comma s = p :: ps.
Proof.
  induction s as [|c r (p & ps & IH)]; simpl; [now eauto|].
  destruct (Ascii.eqb c ","); [now eauto|].
  rewrite IH. eauto.
Qed.

Lemma split_comma_blank (s : string) :
  Js.trimEnd s = "" -> Js.split_comma s = [s].
Proof.
  induction s as [|c r IH]; simpl; [reflexivity|].
  destruct (Js.isWhiteSpace c) eqn:E; simpl; [|discriminate].
  destruct (Js.isEmpty (Js.trimEnd r)) eqn:F; [|discriminate].
  intros _. apply isEmpty_true in F.
  rewrite (eqb_comma_not_space c E), (IH F). reflexivity.
Qed.

Lemma split_trimStart (s : string) :
  map Js.trim (Js.split_comma (Js.trimStart s))
  = map Js.trim (Js.split_comma s).
Proof.
  induction s as [|c r IH]; [reflexivity|].
  cbn [Js.trimStart]. destruct (Js.isWhiteSpace c) eqn:E; [|reflexivity].
  rewrite IH. cbn [Js.split_comma]. rewrite (eqb_comma_not_space c E).
  destruct (split_comma_cons r) as (p & ps & ->). simpl.
  now rewrite (trim_space_cons c p E).
Qed.

Lemma split_trimEnd (s : string) :
  map Js.trimEnd (Js.split_comma (Js.trimEnd s))
  = map Js.trimEnd (Js.split_comma s).
Proof.
  induction s as [|c r IH]; [reflexivity|].
  cbn [Js.trimEnd].
  destruct (Js.isWhiteSpace c && Js.isEmpty (Js.trimEnd r)) eqn:E.
  - apply andb_true_iff in E as [E F]. apply isEmpty_true in F.
    cbn [Js.split_comma]. rewrite (eqb_comma_not_space c E).
    rewrite (split_comma_blank r F). simpl. now rewrite E, F.
  - cbn [Js.split_comma]. destruct (Ascii.eqb c ","); simpl.
    + now rewrite IH.
    + destruct (split_comma_cons r) as (p & ps & Hp).
      destruct (split_comma_cons (Js.trimEnd r)) as (p' & ps' & Hp').
      rewrite Hp, Hp' in *. simpl in *. inversion IH as [[H1 H2]].
      now rewrite H1.
Qed.

Lemma map_trim_of_trimEnd (xs ys : list string) :
  map Js.trimEnd xs = map Js.trimEnd ys -> map Js.trim xs = map Js.trim ys.
Proof.
  revert ys. induction xs as [|x xs IH]; intros [|y ys] H; simpl in *;
    try discriminate; [reflexivity|].
  inversion H as [[H1 H2]]. f_equal; [now apply trim_of_trimEnd_eq | now apply IH].
Qed.

Lemma split_trim (s : string) :
  map Js.trim (Js.split_comma (Js.trim s)) = map Js.trim (Js.split_comma s).
Proof.
  transitivity (map Js.trim (Js.split_comma (Js.trimStart s))).
  - unfold Js.trim at 2. apply map_trim_of_trimEnd, split_trimEnd.
  - apply split_trimStart.
Qed.

Lemma additionalTokens_trim (text : string) :
  additionalTokens (Js.trim text) = additionalTokens text.
Proof. unfold additionalTokens. now rewrite split_trim. Qed.

Lemma additionalTokens_blank (text : string) :
  Js.trim text = "" -> additionalTokens text = [].
Proof.
  intros H. rewrite <- additionalTokens_trim, H. reflexivity.
Qed.

Lemma parseIngredients_trimmed (text : string) :
  Js.truthy (Js.trim text) = true ->
  parseIngredients (Js.trim text) = additionalTokens text.
Proof.
  intros H. unfold parseIngredients. rewrite trim_idem.
  unfold Js.truthy in H. apply negb_true_iff in H. rewrite H. simpl.
  rewrite <- additionalTokens_trim. unfold additionalTokens.
  apply filter_ext. intros a. apply nonEmpty_isEmpty.
Qed.

(** ** Aggregation *)

Lemma collectStep_spec (app : Form) (acc : list string) (id : string) :
  collectStep app acc id
  = acc ++ flat_map presetFlatItems
             match getPresetById app id with
             | Some preset => [preset]
             | None => []
             end.
Proof.
  unfold collectStep. destruct (getPresetById app id) as [preset|]; simpl.
  - unfold presetFlatItems. rewrite app_nil_r.
    destruct (preset_ingredients preset); reflexivity.
  - now rewrite app_nil_r.
Qed.

Lemma formatStep_spec (app : Form) (acc : list string) (id : string) :
  formatStep app acc id
  = acc ++ map presetExpressionItem
             match getPresetById app id with
             | Some preset => [preset]
             | None => []
             end.
Proof.
  unfold formatStep. destruct (getPresetById app id) as [preset|]; simpl.
  - unfold presetExpressionItem.
    destruct (preset_ingredients preset); reflexivity.
  - now rewrite app_nil_r.
Qed.

Lemma collect_loop (app : Form) (ids : list string) (acc : list string) :
  fold_left (collectStep app) ids acc
  = acc ++ flat_map presetFlatItems
             (flat_map (fun id => match getPresetById app id with
                                  | Some preset => [preset]
                                  | None => []
                                  end) ids).
Proof.
  revert acc. induction ids as [|id ids IH]; intros acc; simpl.
  - now rewrite app_nil_r.
  - rewrite IH, collectStep_spec, flat_map_app, app_assoc. reflexivity.
Qed.

Lemma format_loop (app : Form) (ids : list string) (acc : list string) :
  fold_left (formatStep app) ids acc
  = acc ++ map presetExpressionItem
             (flat_map (fun id => match getPresetById app id with
                                  | Some preset => [preset]
                                  | None => []
                                  end) ids).
Proof.
  revert acc. induction ids as [|id ids IH]; intros acc; simpl.
  - now rewrite app_nil_r.
  - rewrite IH, formatStep_spec, map_app, app_assoc. reflexivity.
Qed.

Lemma truthy_cases (s : string) :
  (Js.truthy s = true /\ s <> "") \/ (Js.truthy s = false /\ s = "").
Proof. destruct s; [right | left]; split; (reflexivity || discriminate). Qed.

Lemma collectAllIngredients_spec (app : Form) :
  collectAllIngredients app
  = flat_map presetFlatItems (selectedPresets app)
    ++ additionalTokens (additionalIngredients app).
Proof.
  unfold collectAllIngredients, selectedPresets. rewrite collect_loop. simpl.
  destruct (truthy_cases (Js.trim (additionalIngredients app)))
    as [[E _]|[E Z]]; rewrite E.
  - now rewrite parseIngredients_trimmed.
  - now rewrite (additionalTokens_blank _ Z), app_nil_r.
Qed.

Lemma buildFormattedLabelText_spec (app : Form) :
  buildFormattedLabelText app
  = Js.join ", " (map presetExpressionItem (selectedPresets app)
                  ++ additionalTokens (additionalIngredients app)).
Proof.
  unfold buildFormattedLabelText, selectedPresets. rewrite format_loop. simpl.
  destruct (truthy_cases (Js.trim (additionalIngredients app)))
    as [[E _]|[E Z]]; rewrite E.
  - now rewrite parseIngredients_trimmed.
  - now rewrite (additionalTokens_blank _ Z), app_nil_r.
Qed.

(** When every checked identifier names a loaded preset, the selected
    presets carry exactly the checked identifiers, in the same order. *)
Lemma selectedPresets_ids (app : Form) :
  (forall id, In id (getSelectedPresets app) -> getPresetById app id <> None) ->
  map preset_id (selectedPresets app) = getSelectedPresets app.
Proof.
  unfold selectedPresets. induction (getSelectedPresets app) as [|id ids IH];
    intros H; simpl; [reflexivity|].
  rewrite map_app, IH by (intros i Hi; apply H; now right). f_equal.
  destruct (getPresetById app id) as [preset|] eqn:E.
  - unfold getPresetById in E. apply find_some in E as [_ E].
    apply String.eqb_eq in E. simpl. now rewrite E.
  - exfalso. apply (H id); [now left | exact E].
Qed.

Lemma find_by_id (sel : list Preset) (p : Preset) :
  NoDup (map preset_id sel) -> In p sel ->
  find (fun q => String.eqb (preset_id q) (preset_id p)) sel = Some p.
Proof.
  induction sel as [|q rest IH]; intros Hnd Hin; [contradiction|].
  cbn [map] in Hnd. inversion Hnd as [|? ? Hq Hrest]; subst.
  cbn [find]. destruct Hin as [->|Hin].
  - now rewrite String.eqb_refl.
  - destruct (String.eqb_spec (preset_id q) (preset_id p)) as [E|_].
    + exfalso. apply Hq. rewrite E. now apply in_map.
    + now apply IH.
Qed.

(** Every list of presets with distinct identifiers is the selection of
    some state of the form: the one where they are loaded and all checked. *)
Lemma selectedPresets_all_checked (sel : list Preset) (text : string) :
  NoDup (map preset_id sel) ->
  selectedPresets (mkForm sel (map preset_id sel) text) = sel.
Proof.
  intros Hnd. unfold selectedPresets, getSelectedPresets, getPresetById.
  cbn [checkedPresetIds presets].
  assert (forall sub, incl sub sel ->
            flat_map (fun id => match find (fun q => String.eqb (preset_id q) id) sel with
                                | Some preset => [preset]
                                | None => []
                                end) (map preset_id sub) = sub) as H.
  { induction sub as [|p sub IH]; intros Hincl; [reflexivity|].
    cbn [map flat_map].
    rewrite (find_by_id sel p Hnd) by (apply Hincl; now left).
    cbn [app]. f_equal. apply IH. intros x Hx. apply Hincl. now right. }
  apply H, incl_refl.
Qed.

Lemma selectedPresets_checked (loaded selected : list Preset) (text : string) :
  NoDup (map preset_id loaded) -> incl selected loaded ->
  selectedPresets (mkForm loaded (map preset_id selected) text) = selected.
Proof.
  intros Hnd. unfold selectedPresets, getSelectedPresets, getPresetById.
  cbn [checkedPresetIds presets].
  induction selected as [|p rest IH]; intros Hincl; [reflexivity|].
  cbn [map flat_map].
  rewrite (find_by_id loaded p Hnd) by (apply Hincl; now left).
  cbn [app]. f_equal. apply IH. intros x Hx. apply Hincl. now right.
Qed.

(** C2: for every list of selected presets, taken among loaded presets with
    distinct identifiers and checked in that order, and every additional
    text, the flattened list and the canonical expression the program builds
    are those of the aggregation the specification describes: the presets
    are visited in selection order, a preset with sub-ingredients gives the
    item [name (sub1, sub2, ...)] and its sub-ingredients, a preset without
    gives its name to both, the trimmed non-empty comma-separated tokens of
    the additional text follow, and the expression is the items joined with
    a comma and a space; nothing is sorted.  The two aggregations of the
    specification's examples come out as written there. *)
Theorem C2_aggregation_in_selection_order
    (loaded selected : list Preset) (text : string)
    (Hdistinct : NoDup (map preset_id loaded))
    (Hloaded : incl selected loaded) :
  let app := mkForm loaded (map preset_id selected) text in
  collectAllIngredients app = flatList (aggregate selected text)
  /\ buildFormattedLabelText app = canonicalExpression (aggregate selected text)
  /\ flatList (aggregate selected text)
     = flat_map (fun preset => match preset_ingredients preset with
                               | [] => [preset_name preset]
                               | subs => subs
                               end) selected
       ++ filter (fun token => negb (String.eqb token ""))
                 (map Js.trim (Js.split_comma text))
  /\ canonicalExpression (aggregate selected text)
     = Js.join ", "
         (map (fun preset =>
                 match preset_ingredients preset with
                 | [] => preset_name preset
                 | subs => (preset_name preset ++ " (" ++ Js.join ", " subs
                            ++ ")")%string
                 end) selected
          ++ filter (fun token => negb (String.eqb token ""))
                    (map Js.trim (Js.split_comma text)))
  /\ (let spices := mkPreset "default-2" "Spices" None ["Cinnamon"; "Nutmeg"] in
      let eggs := mkPreset "default-3" "Eggs" None [] in
      collectAllIngredients (mkForm [spices; eggs] ["default-2"] "Vanilla, Salt")
      = ["Cinnamon"; "Nutmeg"; "Vanilla"; "Salt"]
      /\ buildFormattedLabelText
           (mkForm [spices; eggs] ["default-2"] "Vanilla, Salt")
         = "Spices (Cinnamon, Nutmeg), Vanilla, Salt"
      /\ collectAllIngredients (mkForm [spices; eggs] ["default-3"] "")
         = ["Eggs"]
      /\ buildFormattedLabelText (mkForm [spices; eggs] ["default-3"] "")
         = "Eggs"
      /\ buildFormattedLabelText
           (mkForm [spices; eggs] ["default-3"; "default-2"] " Salt ,, Vanilla")
         = "Eggs, Spices (Cinnamon, Nutmeg), Salt, Vanilla").
Proof.
  intros app.
  pose proof (selectedPresets_checked loaded selected text Hdistinct Hloaded)
    as Hsel.
  assert (additionalTokens text
          = filter (fun token => negb (String.eqb token ""))
                   (map Js.trim (Js.split_comma text))) as Htok
    by (unfold additionalTokens; apply filter_ext; intros a; now destruct a).
  split; [|split; [|split; [|split]]].
  - unfold app. rewrite collectAllIngredients_spec, Hsel. reflexivity.
  - unfold app. rewrite buildFormattedLabelText_spec, Hsel. reflexivity.
  - cbn [aggregate flatList]. now rewrite Htok.
  - cbn [aggregate canonicalExpression]. now rewrite Htok.
  - repeat split.
Qed.

Lemma C2_aggregation_in_selection_order_witness :
  let spices := mkPreset "default-2" "Spices" None ["Cinnamon"; "Nutmeg"] in
  let eggs := mkPreset "default-3" "Eggs" None [] in
  let app := mkForm [spices; eggs] ["default-3"; "default-2"] "Salt" in
  collectAllIngredients app = ["Eggs"; "Cinnamon"; "Nutmeg"; "Salt"]
  /\ buildFormattedLabelText app = "Eggs, Spices (Cinnamon, Nutmeg), Salt".
Proof.
  intros spices eggs app.
  assert (NoDup (map preset_id [spices; eggs])) as Hd
    by (repeat constructor; simpl; intuition discriminate).
  assert (incl [eggs; spices] [spices; eggs]) as Hi
    by (intros x [<-|[<-|[]]]; simpl; auto).
  split.
  - apply (proj1 (C2_aggregation_in_selection_order
                    [spices; eggs] [eggs; spices] "Salt" Hd Hi)).
  - apply (proj1 (proj2 (C2_aggregation_in_selection_order
                           [spices; eggs] [eggs; spices] "Salt" Hd Hi))).
Defined.

(** The two aggregations of the specification's examples. *)
Example aggregate_spices :
  let app := mkForm [mkPreset "p1" "Spices" None ["Cinnamon"; "Nutmeg"]]
                    ["p1"] "Vanilla, Salt" in
  buildFormattedLabelText app = "Spices (Cinnamon, Nutmeg), Vanilla, Salt"
  /\ collectAllIngredients app = ["Cinnamon"; "Nutmeg"; "Vanilla"; "Salt"].
Proof. split; reflexivity. Qed.

Example aggregate_eggs :
  let app := mkForm [mkPreset "p1" "Eggs" None []] ["p1"] "" in
  buildFormattedLabelText app = "Eggs"
  /\ collectAllIngredients app = ["Eggs"].
Proof. split; reflexivity. Qed.

(** C8: with no preset selected and an additional text without tokens the
    aggregation still returns: the flattened list is empty and so is the
    canonical expression. *)
Theorem C8_empty_aggregation (app : Form)
    (Hnone : selectedPresets app = [])
    (Hblank : additionalTokens (additionalIngredients app) = []) :
  collectAllIngredients app = [] /\ buildFormattedLabelText app = "".
Proof.
  rewrite collectAllIngredients_spec, buildFormattedLabelText_spec.
  rewrite Hnone, Hblank. split; reflexivity.
Qed.

Lemma C8_empty_aggregation_witness :
  let app := mkForm [mkPreset "p1" "Eggs" None []] [] " , ,  " in
  collectAllIngredients app = [] /\ buildFormattedLabelText app = "".
Proof.
  intros app. apply (C8_empty_aggregation app); reflexivity.
Defined.

(** ** Substrings *)

Lemma startsWith_spec (needle hay : string) :
  startsWith needle hay = true
  <-> exists after, hay = (needle ++ after)%string.
Proof.
  revert hay. induction needle as [|a n IH]; intros hay; simpl.
  - split; [intros _; now exists hay | reflexivity].
  - destruct hay as [|b h].
    + split; [discriminate | intros [after H]; discriminate].
    + rewrite andb_true_iff, IH. split.
      * intros [E [after ->]]. apply Ascii.eqb_eq in E. subst. now exists after.
      * intros [after H]. inversion H; subst. split.
        -- apply Ascii.eqb_refl.
        -- now exists after.
Qed.

Lemma includes_spec (needle hay : string) :
  includes needle hay = true <-> isSubstring needle hay.
Proof.
  unfold isSubstring. induction hay as [|b h IH].
  - cbn [includes]. rewrite orb_false_r, startsWith_spec. split.
    + intros [after H]. now exists "", after.
    + intros ([|x before] & after & H); [now exists after | discriminate].
  - cbn [includes]. rewrite orb_true_iff, startsWith_spec, IH. split.
    + intros [[after H]|(before & after & H)].
      * now exists "", after.
      * exists (String b before), after. simpl. now rewrite H.
    + intros ([|x before] & after & H).
      * left. now exists after.
      * right. simpl in H. inversion H; subst. now exists before, after.
Qed.

(** ** Splitting at top level and emphasizing *)

Lemma splitStep_unfold (P : list string) (cur : string) (d : Z) (c : ascii) :
  splitStep (mkSplit P cur d) c
  = if Ascii.eqb c "," && (depthAfter d c =? 0)%Z
    then mkSplit (P ++ [Js.trim cur]) "" (depthAfter d c)
    else mkSplit P (cur ++ String c "")%string (depthAfter d c).
Proof. reflexivity. Qed.

Lemma pieces_cons (d : Z) (s : string) : exists p ps, pieces d s = p :: ps.
Proof.
  revert d. induction s as [|c r IH]; intros d; cbn [pieces]; [now eauto|].
  destruct (Ascii.eqb c "," && (depthAfter d c =? 0)%Z); [now eauto|].
  destruct (IH (depthAfter d c)) as (p & ps & ->). eauto.
Qed.

(** The loop computes the pieces: what it pushes are the trimmed pieces but
    the last, and what it leaves in [current] is the last piece. *)
Lemma splitLoop_pieces (s : string) :
  forall (P : list string) (cur : string) (d : Z),
    splitLoop s (mkSplit P cur d)
    = mkSplit (P ++ map Js.trim (removelast (glue cur (pieces d s))))
              (last (glue cur (pieces d s)) "")
              (endDepth d s).
Proof.
  induction s as [|c r IH]; intros P cur d.
  - cbn. now rewrite app_nil_r, str_app_nil_r.
  - cbn [splitLoop pieces endDepth]. rewrite splitStep_unfold.
    destruct (pieces_cons (depthAfter d c) r) as (p & ps & Hp).
    destruct (Ascii.eqb c "," && (depthAfter d c =? 0)%Z).
    + rewrite IH, Hp. cbn [glue String.append]. rewrite str_app_nil_r.
      cbn [removelast last map]. now rewrite <- app_assoc.
    + rewrite IH, Hp. cbn [glue]. rewrite str_app_assoc. reflexivity.
Qed.

Lemma splitTopLevel_pieces (s : string) :
  splitTopLevel s
  = map Js.trim (removelast (pieces 0 s))
    ++ (if Js.isEmpty (Js.trim (last (pieces 0 s) "")) then []
        else [Js.trim (last (pieces 0 s) "")]).
Proof.
  unfold splitTopLevel, splitInit. rewrite splitLoop_pieces.
  cbn [parts current app]. unfold Js.truthy.
  destruct (pieces_cons 0 s) as (p & ps & ->). cbn [glue String.append].
  destruct (Js.isEmpty (Js.trim (last (p :: ps) ""))); cbn [negb];
    [now rewrite app_nil_r | reflexivity].
Qed.

Lemma map_removelast_last {A B : Type} (f : A -> B) (l : list A) (d : A) :
  l <> [] -> map f (removelast l) ++ [f (last l d)] = map f l.
Proof.
  intros H. rewrite (app_removelast_last d H) at 3.
  now rewrite map_app.
Qed.

(** Whatever the input, the items of the program that are not empty are the
    items of the specification. *)
Lemma splitTopLevel_filter (s : string) :
  filter (fun item => negb (Js.isEmpty item)) (splitTopLevel s)
  = splitTopLevelSpec s.
Proof.
  rewrite splitTopLevel_pieces. unfold splitTopLevelSpec.
  destruct (pieces_cons 0 s) as (p & ps & Hp). rewrite Hp.
  assert (p :: ps <> []) as Hne by discriminate.
  rewrite <- (map_removelast_last Js.trim (p :: ps) "" Hne).
  rewrite !filter_app. f_equal.
  destruct (Js.isEmpty (Js.trim (last (p :: ps) ""))) eqn:E; cbn [filter];
    rewrite ?E; reflexivity.
Qed.

(** The program agrees with the specification exactly when it returns no
    empty item. *)
Lemma splitTopLevel_spec_iff (s : string) :
  splitTopLevel s = splitTopLevelSpec s <-> ~ In "" (splitTopLevel s).
Proof.
  rewrite <- splitTopLevel_filter. split.
  - intros H Hin. rewrite H in Hin. apply filter_In in Hin as [_ Hin].
    discriminate Hin.
  - intros H. induction (splitTopLevel s) as [|x xs IH]; [reflexivity|].
    cbn [filter]. destruct x as [|c r].
    + exfalso. apply H. now left.
    + cbn. f_equal. apply IH. intros Hin. apply H. now right.
Qed.

(** Every item the program returns is trimmed. *)
Lemma splitTopLevel_trimmed (s item : string) :
  In item (splitTopLevel s) -> Js.trim item = item.
Proof.
  rewrite splitTopLevel_pieces. intros H. apply in_app_or in H as [H|H].
  - apply in_map_iff in H as (x & <- & _). apply trim_idem.
  - destruct (Js.isEmpty (Js.trim (last (pieces 0 s) ""))); [contradiction|].
    destruct H as [<-|[]]. apply trim_idem.
Qed.

(** The pieces are the text between the commas at depth zero: putting the
    commas back gives the expression, and no piece has such a comma. *)
Lemma pieces_join (d : Z) (s : string) : Js.join "," (pieces d s) = s.
Proof.
  revert d. induction s as [|c r IH]; intros d; cbn [pieces]; [reflexivity|].
  specialize (IH (depthAfter d c)).
  destruct (pieces_cons (depthAfter d c) r) as (p & ps & Hp).
  rewrite Hp in *.
  destruct (Ascii.eqb c "," && (depthAfter d c =? 0)%Z) eqn:E.
  - apply andb_true_iff in E as [E _]. apply Ascii.eqb_eq in E. subst c.
    rewrite join_cons2, IH. reflexivity.
  - destruct ps as [|q qs].
    + cbn in *. now rewrite IH.
    + rewrite join_cons2 in *. cbn [String.append]. f_equal. exact IH.
Qed.

Lemma depthAfter_comma (d : Z) : depthAfter d "," = d.
Proof. reflexivity. Qed.

Lemma pieces_pieceList (s : string) : forall d, pieceList d (pieces d s).
Proof.
  induction s as [|c r IH]; intros d; cbn [pieces]; [now split|].
  specialize (IH (depthAfter d c)).
  destruct (pieces_cons (depthAfter d c) r) as (p & ps & Hp).
  rewrite Hp in *.
  destruct (Ascii.eqb c "," && (depthAfter d c =? 0)%Z) eqn:E.
  - apply andb_true_iff in E as [E1 E2]. apply Ascii.eqb_eq in E1. subst c.
    rewrite depthAfter_comma in *. apply Z.eqb_eq in E2. subst d.
    split; [reflexivity|]. split; [reflexivity | exact IH].
  - destruct IH as [H1 H2]. split.
    + cbn [noTopComma]. now rewrite E, H1.
    + destruct ps; [exact I | exact H2].
Qed.

(** White space neither changes the depth nor separates. *)
Lemma space_neutral (c : ascii) (d : Z) :
  Js.isWhiteSpace c = true ->
  depthAfter d c = d /\ Ascii.eqb c "," = false.
Proof. each_ascii c; intros H; try discriminate H; split; reflexivity. Qed.

Lemma noTopComma_space (c : ascii) (d : Z) (p : string) :
  Js.isWhiteSpace c = true ->
  noTopComma d (String c p) = noTopComma d p
  /\ endDepth d (String c p) = endDepth d p.
Proof.
  intros H. destruct (space_neutral c d H) as [Hd Hc].
  cbn [noTopComma endDepth]. now rewrite Hd, Hc.
Qed.

Lemma trimStart_neutral (p : string) (d : Z) :
  noTopComma d (Js.trimStart p) = noTopComma d p
  /\ endDepth d (Js.trimStart p) = endDepth d p.
Proof.
  induction p as [|c r IH]; [now split|].
  cbn [Js.trimStart]. destruct (Js.isWhiteSpace c) eqn:E; [|now split].
  destruct (noTopComma_space c d r E) as [-> ->]. exact IH.
Qed.

Lemma trimEnd_neutral (p : string) : forall d,
  (noTopComma d p = true -> noTopComma d (Js.trimEnd p) = true)
  /\ endDepth d (Js.trimEnd p) = endDepth d p.
Proof.
  induction p as [|c r IH]; intros d; [now split|].
  cbn [Js.trimEnd].
  destruct (Js.isWhiteSpace c && Js.isEmpty (Js.trimEnd r)) eqn:E.
  - apply andb_true_iff in E as [E F]. apply isEmpty_true in F.
    destruct (noTopComma_space c d r E) as [_ ->].
    destruct (IH d) as [_ <-]. rewrite F. now split.
  - cbn [noTopComma endDepth]. destruct (IH (depthAfter d c)) as [H1 H2].
    split; [|exact H2]. intros H. apply andb_true_iff in H as [Ha Hb].
    now rewrite Ha, (H1 Hb).
Qed.

Lemma trim_neutral (p : string) (d : Z) :
  (noTopComma d p = true -> noTopComma d (Js.trim p) = true)
  /\ endDepth d (Js.trim p) = endDepth d p.
Proof.
  unfold Js.trim. destruct (trimStart_neutral p d) as [H1 H2].
  destruct (trimEnd_neutral (Js.trimStart p) d) as [H3 H4]. split.
  - intros H. apply H3. now rewrite H1.
  - now rewrite H4.
Qed.

Lemma pieceList_trim (ps : list string) : forall d,
  pieceList d ps -> pieceList d (map Js.trim ps).
Proof.
  induction ps as [|p rest IH]; intros d; [exact (fun H => H)|].
  intros [H1 H2]. destruct (trim_neutral p d) as [T1 T2].
  split; [now apply T1|]. destruct rest as [|q rest']; [exact I|].
  destruct H2 as [H2 H3]. split; [now rewrite T2 | now apply IH].
Qed.

Lemma pieceList_removelast (ps : list string) : forall d,
  pieceList d ps -> removelast ps <> [] -> pieceList d (removelast ps).
Proof.
  induction ps as [|p rest IH]; intros d H Hne; [contradiction|].
  destruct rest as [|q rest']; [now contradiction Hne|].
  destruct H as [H1 [H2 H3]].
  change (removelast (p :: q :: rest')) with (p :: removelast (q :: rest')).
  split; [exact H1|]. pose proof (IH 0%Z H3) as IH0.
  destruct (removelast (q :: rest')); [exact I|].
  split; [exact H2|]. apply IH0. discriminate.
Qed.

Lemma pieces_single (p : string) : forall d,
  noTopComma d p = true -> pieces d p = [p].
Proof.
  induction p as [|c r IH]; intros d H; [reflexivity|].
  cbn [noTopComma] in H. apply andb_true_iff in H as [Ha Hb].
  apply negb_true_iff in Ha. cbn [pieces]. now rewrite Ha, (IH _ Hb).
Qed.

Lemma pieces_app_comma (p rest : string) : forall d,
  noTopComma d p = true -> endDepth d p = 0%Z ->
  pieces d (p ++ String "," rest) = p :: pieces 0 rest.
Proof.
  induction p as [|c r IH]; intros d H He.
  - cbn in He. subst d. reflexivity.
  - cbn [noTopComma] in H. apply andb_true_iff in H as [Ha Hb].
    apply negb_true_iff in Ha. cbn [endDepth] in He.
    cbn [String.append pieces]. now rewrite Ha, (IH _ Hb He).
Qed.

Lemma pieces_of_join (items : list string) : forall lead : bool,
  pieceList 0 items ->
  pieces 0 ((if lead then " " else "") ++ Js.join ", " items)
  = spaced lead items.
Proof.
  induction items as [|x rest IH]; intros lead H; [contradiction|].
  destruct H as [H1 H2].
  assert (noTopComma 0 ((if lead then " " else "") ++ x) = true) as Hx
    by (destruct lead; exact H1).
  destruct rest as [|y rest'].
  - cbn [Js.join spaced map]. rewrite (pieces_single _ _ Hx).
    destruct lead; reflexivity.
  - destruct H2 as [H2 H3]. rewrite join_cons2.
    assert (endDepth 0 ((if lead then " " else "") ++ x) = 0%Z) as He
      by (destruct lead; exact H2).
    replace ((if lead then " " else "") ++ x ++ ", " ++ Js.join ", " (y :: rest'))%string
      with (((if lead then " " else "") ++ x)
            ++ String "," (" " ++ Js.join ", " (y :: rest')))%string
      by (now rewrite str_app_assoc).
    rewrite (pieces_app_comma _ _ 0 Hx He), (IH true H3).
    destruct lead; reflexivity.
Qed.

Lemma trim_spaced (items : list string) (lead : bool) :
  (forall i, In i items -> Js.trim i = i) ->
  map Js.trim (spaced lead items) = items.
Proof.
  intros H. destruct items as [|x rest]; [reflexivity|].
  cbn [spaced map]. f_equal.
  - destruct lead; [rewrite trim_space_cons by reflexivity|];
      apply H; now left.
  - rewrite map_map. rewrite <- (map_id rest) at 2. apply map_ext_in.
    intros i Hi. rewrite trim_space_cons by reflexivity. apply H. now right.
Qed.

Lemma last_map {A B : Type} (f : A -> B) (l : list A) (d : A) :
  last (map f l) (f d) = f (last l d).
Proof.
  induction l as [|x [|y r] IH]; try reflexivity. exact IH.
Qed.

(** Joining and splitting gives back a list of trimmed top-level items
    whose last item is not empty. *)
Lemma splitTopLevel_of_join (items : list string) :
  pieceList 0 items ->
  (forall i, In i items -> Js.trim i = i) ->
  last items "" <> "" ->
  splitTopLevel (Js.join ", " items) = items.
Proof.
  intros Hp Ht Hl. rewrite splitTopLevel_pieces.
  pose proof (pieces_of_join items false Hp) as Hj.
  change (pieces 0 (Js.join ", " items) = spaced false items) in Hj.
  rewrite Hj.
  assert (spaced false items <> []) as Hne
    by (destruct items; [contradiction | discriminate]).
  assert (Js.trim (last (spaced false items) "") = last items "") as HL.
  { rewrite <- (last_map Js.trim (spaced false items) "").
    now rewrite (trim_spaced items false Ht). }
  rewrite HL. apply isEmpty_false in Hl. rewrite Hl, <- HL.
  rewrite (map_removelast_last Js.trim _ "" Hne).
  now apply trim_spaced.
Qed.

Lemma splitTopLevel_pieceList (s : string) :
  splitTopLevel s = [] \/ pieceList 0 (splitTopLevel s).
Proof.
  rewrite splitTopLevel_pieces.
  pose proof (pieces_pieceList s 0) as Hp.
  destruct (pieces_cons 0 s) as (p & ps & E). rewrite E in *.
  assert (p :: ps <> []) as Hne by discriminate.
  destruct (Js.isEmpty (Js.trim (last (p :: ps) ""))).
  - rewrite app_nil_r. destruct (removelast (p :: ps)) eqn:R; [now left|].
    right. rewrite <- R. apply pieceList_trim, pieceList_removelast;
      [exact Hp | now rewrite R].
  - right. rewrite (map_removelast_last Js.trim _ "" Hne).
    now apply pieceList_trim.
Qed.

(** The round trip of the item boundaries holds on every expression,
    balanced or not, whose split does not end in an empty item. *)
Lemma splitTopLevel_round_trip (s : string) :
  (forall items item, splitTopLevel s = items ++ [item] -> item <> "") ->
  splitTopLevel (Js.join ", " (splitTopLevel s)) = splitTopLevel s.
Proof.
  intros H. destruct (splitTopLevel_pieceList s) as [E|Hp];
    [now rewrite E|].
  apply splitTopLevel_of_join; [exact Hp | apply splitTopLevel_trimmed |].
  assert (splitTopLevel s <> []) as Hne
    by (destruct (splitTopLevel s); [contradiction | discriminate]).
  apply (H (removelast (splitTopLevel s))).
  now apply app_removelast_last.
Qed.

Lemma pieceList_forall (l : list string) :
  pieceList 0 l
  <-> l <> []
      /\ (forall x, In x l -> noTopComma 0 x = true)
      /\ (forall x, In x (removelast l) -> endDepth 0 x = 0%Z).
Proof.
  induction l as [|p rest IH];
    [split; [intros [] | intros [H _]; now contradiction H]|].
  destruct rest as [|q rest'].
  - cbn [pieceList removelast]. split.
    + intros [H _]. split; [discriminate|]. split; [|contradiction].
      now intros x [<-|[]].
    + intros (_ & H & _). split; [apply H; now left | exact I].
  - change (removelast (p :: q :: rest')) with (p :: removelast (q :: rest')).
    cbn [pieceList] in *. rewrite IH. split.
    + intros (H1 & H2 & _ & H3 & H4). split; [discriminate|]. split.
      * intros x [<-|Hx]; [exact H1 | now apply H3].
      * intros x [<-|Hx]; [exact H2 | now apply H4].
    + intros (_ & H1 & H2). split; [apply H1; now left|].
      split; [apply H2; now left|]. split; [discriminate|]. split.
      * intros x Hx. apply H1. now right.
      * intros x Hx. apply H2. now right.
Qed.

Lemma removelast_filter_in {A : Type} (f : A -> bool) (l : list A) (x : A) :
  In x (removelast (filter f l)) -> In x (removelast l).
Proof.
  induction l as [|a [|b r] IH]; [contradiction | |].
  - cbn. destruct (f a); contradiction.
  - change (removelast (a :: b :: r)) with (a :: removelast (b :: r)).
    change (filter f (a :: b :: r))
      with (if f a then a :: filter f (b :: r) else filter f (b :: r)).
    destruct (f a).
    + destruct (filter f (b :: r)) eqn:E; [cbn; contradiction|].
      change (removelast (a :: a0 :: l)) with (a :: removelast (a0 :: l)).
      intros [<-|H]; [now left | right; now apply IH].
    + intros H. right. now apply IH.
Qed.

Lemma filter_all {A : Type} (f : A -> bool) (l : list A) :
  (forall x, In x l -> f x = true) -> filter f l = l.
Proof.
  induction l as [|a r IH]; intros H; [reflexivity|].
  cbn [filter]. rewrite (H a (or_introl eq_refl)). f_equal.
  apply IH. intros x Hx. apply H. now right.
Qed.

(** With the items of the specification, which are never empty, the round
    trip holds on every expression. *)
Lemma splitTopLevelSpec_round_trip (s : string) :
  splitTopLevelSpec (Js.join ", " (splitTopLevelSpec s)) = splitTopLevelSpec s.
Proof.
  set (nonempty := fun item => negb (Js.isEmpty item)).
  assert (forall x, In x (splitTopLevelSpec s) -> nonempty x = true) as Hn
    by (intros x Hx; unfold splitTopLevelSpec in Hx;
        now apply filter_In in Hx as [_ Hx]).
  destruct (splitTopLevelSpec s) as [|i its] eqn:E; [reflexivity|].
  rewrite <- E in *. rewrite <- splitTopLevel_filter.
  rewrite splitTopLevel_of_join; [now apply filter_all| | |].
  - pose proof (pieceList_trim _ _ (pieces_pieceList s 0)) as Hp.
    apply pieceList_forall in Hp as (_ & H1 & H2).
    apply pieceList_forall. split; [rewrite E; discriminate|].
    unfold splitTopLevelSpec. split.
    + intros x Hx. apply filter_In in Hx as [Hx _]. now apply H1.
    + intros x Hx. apply removelast_filter_in in Hx. now apply H2.
  - intros x Hx. unfold splitTopLevelSpec in Hx.
    apply filter_In in Hx as [Hx _]. apply in_map_iff in Hx as (y & <- & _).
    apply trim_idem.
  - assert (In (last (splitTopLevelSpec s) "") (splitTopLevelSpec s)) as Hin.
    { rewrite E. rewrite (app_removelast_last "" (l := i :: its)) at 2
        by discriminate.
      apply in_or_app. right. now left. }
    apply Hn in Hin. unfold nonempty in Hin.
    apply negb_true_iff, isEmpty_false in Hin. exact Hin.
Qed.


(** The example of the specification. *)
Example splitTopLevel_cookie_mix :
  splitTopLevel "Cookie Mix (flour, sugar), Butter"
  = ["Cookie Mix (flour, sugar)"; "Butter"].
Proof. reflexivity. Qed.

(** C1: an item that is empty after trimming is dropped only when it is the
    last one; between two separators it stays in the result, where the
    specification has it dropped. *)
Theorem C1_inner_empty_item_kept :
  splitTopLevel "a,,b" = ["a"; ""; "b"]
  /\ splitTopLevelSpec "a,,b" = ["a"; "b"]
  /\ In "" (splitTopLevel "a,,b").
Proof. repeat split; simpl; auto. Qed.

(** C4: on an expression without any parenthesis that ends in an empty item,
    splitting, joining and splitting again loses that item; with the items
    of the specification the two splits agree. *)
Theorem C4_round_trip_loses_empty_item :
  balanced "a,," = true
  /\ splitTopLevel "a,," = ["a"; ""]
  /\ splitTopLevel (Js.join ", " (splitTopLevel "a,,")) = ["a"]
  /\ splitTopLevel (Js.join ", " (splitTopLevel "a,,")) <> splitTopLevel "a,,"
  /\ splitTopLevelSpec (Js.join ", " (splitTopLevelSpec "a,,"))
     = splitTopLevelSpec "a,,".
Proof. repeat split; try reflexivity. discriminate. Qed.

Lemma indexOf_absent (c : ascii) (s : string) :
  occurs c s = false -> Js.indexOf c s = (-1)%Z.
Proof.
  induction s as [|d r IH]; simpl; [reflexivity|].
  intros H. apply orb_false_iff in H as [H1 H2].
  rewrite H1, (IH H2). reflexivity.
Qed.

Lemma indexOf_first (c : ascii) (before rest : string) :
  occurs c before = false ->
  Js.indexOf c (before ++ String c rest)
  = Z.of_nat (String.length before).
Proof.
  induction before as [|d r IH]; intros H.
  - simpl. now rewrite Ascii.eqb_refl.
  - cbn [occurs] in H. apply orb_false_iff in H as [H1 H2].
    cbn [String.append Js.indexOf String.length]. rewrite H1, (IH H2).
    destruct (Z.ltb_spec (Z.of_nat (String.length r)) 0); lia.
Qed.

Lemma take_app_length (a b : string) : Js.take (String.length a) (a ++ b) = a.
Proof. induction a as [|x r IH]; simpl; [now destruct b | now rewrite IH]. Qed.

Lemma drop_app_length (a b : string) : Js.drop (String.length a) (a ++ b) = b.
Proof. induction a as [|x r IH]; simpl; [reflexivity | exact IH]. Qed.

Lemma formatPart_named_group (before rest : string) :
  occurs "(" before = false -> before <> "" ->
  formatPart (before ++ String "(" rest)
  = ("<strong>" ++ escapeHtml (Js.trim before) ++ "</strong> "
     ++ String "(" rest)%string.
Proof.
  intros Hb Hne. unfold formatPart.
  rewrite (indexOf_first "(" before rest Hb).
  assert (0 < String.length before)%nat as Hlen
    by (destruct before; [congruence | simpl; lia]).
  destruct (Z.ltb_spec 0 (Z.of_nat (String.length before))); [|lia].
  unfold Js.substring_to, Js.substring_from. rewrite Nat2Z.id.
  now rewrite take_app_length, drop_app_length.
Qed.

Lemma formatPart_whole (part : string) :
  occurs "(" part = false \/ (exists r, part = String "(" r) ->
  formatPart part = ("<strong>" ++ escapeHtml part ++ "</strong>")%string.
Proof.
  intros [H|[r ->]]; unfold formatPart.
  - now rewrite (indexOf_absent _ _ H).
  - reflexivity.
Qed.

(** C3: an item that begins with the opening parenthesis is emphasized and
    escaped as a whole, parenthetical text included, although that text was
    to stay as it is; where a name comes before the parenthesis, as in the
    example of the specification, only the name is emphasized. *)
Theorem C3_leading_parenthesis_emphasized :
  occurs "(" "(a & b)" = true
  /\ formatIngredientsWithBoldPresetNames "(a & b)"
     = "<strong>(a &amp; b)</strong>"
  /\ ~ isSubstring "(a & b)" (formatIngredientsWithBoldPresetNames "(a & b)")
  /\ formatIngredientsWithBoldPresetNames "Spices (Cinnamon, Nutmeg), Butter"
     = "<strong>Spices</strong> (Cinnamon, Nutmeg), <strong>Butter</strong>".
Proof.
  split; [reflexivity | split; [reflexivity | split; [|reflexivity]]].
  intros H. apply includes_spec in H. discriminate H.
Qed.

(** ** Identifier resolution *)

Lemma hexDigit_hexValue (c : ascii) (v : nat) :
  ObjectId.hexValue c = Some v ->
  (v < 16)%nat /\ ObjectId.hexDigit v = Js.lowerChar c.
Proof.
  each_ascii c; vm_compute; intros H; try discriminate H;
    injection H as <-; split; (lia || reflexivity).
Qed.

Lemma lowerChar_fixed (c : ascii) :
  Js.lowerChar c = c <-> Js.isUpper c = false.
Proof.
  each_ascii c; vm_compute; split; intros H;
    (reflexivity || discriminate H).
Qed.

Lemma isLowerHexDigit_spec (c : ascii) :
  isLowerHexDigit c = ObjectId.isHexDigit c && negb (Js.isUpper c).
Proof. each_ascii c; reflexivity. Qed.

Lemma byte_digits (h l : nat) :
  (h < 16)%nat -> (l < 16)%nat ->
  ((16 * h + l) / 16 = h /\ (16 * h + l) mod 16 = l)%nat.
Proof.
  intros Hh Hl. split.
  - symmetry. apply (Nat.div_unique _ 16 h l); lia.
  - symmetry. apply (Nat.mod_unique _ 16 h l); lia.
Qed.

(** Decoding an even number of hexadecimal digits succeeds, and writing the
    bytes back gives the digits in lowercase. *)
Lemma bytesFromHex_total (n : nat) : forall s : string,
  String.length s = (2 * n)%nat ->
  ObjectId.allChars ObjectId.isHexDigit s = true ->
  exists bs, ObjectId.bytesFromHex s = Some bs
             /\ ObjectId.hexOfBytes bs = Js.toLowerCase s
             /\ List.length bs = n.
Proof.
  induction n as [|n IH]; intros s Hlen Hhex.
  - destruct s; [|discriminate]. exists []. repeat split.
  - destruct s as [|hi [|lo r]]; try (simpl in Hlen; lia).
    cbn [ObjectId.allChars] in Hhex.
    apply andb_true_iff in Hhex as [Hhi Hhex].
    apply andb_true_iff in Hhex as [Hlo Hr].
    destruct (IH r) as (bs & Hbs & Hstr & Hn); [simpl in Hlen; lia | exact Hr |].
    unfold ObjectId.isHexDigit in Hhi, Hlo.
    destruct (ObjectId.hexValue hi) as [h|] eqn:Eh; [|discriminate].
    destruct (ObjectId.hexValue lo) as [l|] eqn:El; [|discriminate].
    destruct (hexDigit_hexValue hi h Eh) as [Hh Dh].
    destruct (hexDigit_hexValue lo l El) as [Hl Dl].
    exists ((16 * h + l)%nat :: bs). cbn [ObjectId.bytesFromHex].
    rewrite Eh, El, Hbs. split; [reflexivity|]. split.
    + cbn [ObjectId.hexOfBytes].
      destruct (byte_digits h l Hh Hl) as [-> ->].
      rewrite Dh, Dl, Hstr. reflexivity.
    + simpl. now rewrite Hn.
Qed.

Lemma hexOfBytes_length (bs : list nat) :
  String.length (ObjectId.hexOfBytes bs) = (2 * List.length bs)%nat.
Proof. induction bs as [|b r IH]; simpl; [reflexivity | rewrite IH; lia]. Qed.

Lemma bytesOfChars_length (s : string) :
  List.length (ObjectId.bytesOfChars s) = String.length s.
Proof. induction s as [|c r IH]; simpl; [reflexivity | now rewrite IH]. Qed.

Lemma toLowerCase_fixed (s : string) :
  Js.toLowerCase s = s
  <-> ObjectId.allChars (fun c => negb (Js.isUpper c)) s = true.
Proof.
  unfold Js.toLowerCase.
  induction s as [|c r IH]; cbn [Js.mapChars ObjectId.allChars];
    [split; reflexivity|].
  rewrite andb_true_iff, negb_true_iff, <- IH, <- lowerChar_fixed. split.
  - intros H. injection H as H1 H2. now rewrite H1, H2.
  - intros [-> ->]. reflexivity.
Qed.

Lemma allChars_and (p q : ascii -> bool) (s : string) :
  ObjectId.allChars (fun c => p c && q c) s
  = ObjectId.allChars p s && ObjectId.allChars q s.
Proof.
  induction s as [|c r IH]; simpl; [reflexivity|]. rewrite IH.
  destruct (p c), (q c), (ObjectId.allChars p r); reflexivity.
Qed.

Lemma allChars_ext (p q : ascii -> bool) (s : string) :
  (forall c, p c = q c) -> ObjectId.allChars p s = ObjectId.allChars q s.
Proof. intros H. induction s as [|c r IH]; simpl; [reflexivity | now rewrite H, IH]. Qed.

Lemma isStoreGeneratedId_spec (id : string) :
  isStoreGeneratedId id
  = (String.length id =? 24)%nat
    && ObjectId.allChars ObjectId.isHexDigit id
    && ObjectId.allChars (fun c => negb (Js.isUpper c)) id.
Proof.
  unfold isStoreGeneratedId.
  rewrite (allChars_ext _ _ id isLowerHexDigit_spec), allChars_and.
  now rewrite andb_assoc.
Qed.

(** What the constructor and [toString] give on a well-formed string. *)
Lemma construct_hex (id : string) :
  String.length id = 24%nat ->
  ObjectId.allChars ObjectId.isHexDigit id = true ->
  exists oid, ObjectId.construct id = Some oid
              /\ ObjectId.toString oid = Js.toLowerCase id
              /\ List.length (ObjectId.bytes oid) = 12%nat.
Proof.
  intros Hlen Hhex.
  destruct (bytesFromHex_total 12 id Hlen Hhex) as (bs & Hbs & Hstr & Hn).
  exists (ObjectId.mk bs). unfold ObjectId.construct.
  rewrite Hlen, Hhex, Hbs. simpl. auto.
Qed.

Lemma getPresetQuery_store_generated (id : string) :
  isStoreGeneratedId id = true ->
  exists oid, getPresetQuery id = PrimaryKey oid
              /\ ObjectId.toString oid = id
              /\ List.length (ObjectId.bytes oid) = 12%nat.
Proof.
  rewrite isStoreGeneratedId_spec, !andb_true_iff.
  intros [[Hlen Hhex] Hlow]. apply Nat.eqb_eq in Hlen.
  destruct (construct_hex id Hlen Hhex) as (oid & Hc & Hs & Hb).
  apply toLowerCase_fixed in Hlow. rewrite Hlow in Hs.
  exists oid. unfold getPresetQuery, getPresetQuery_try, ObjectId.isValid.
  rewrite Hc, Hs, String.eqb_refl. auto.
Qed.

Lemma getPresetQuery_legacy (id : string) :
  isStoreGeneratedId id = false -> getPresetQuery id = LegacyKey id.
Proof.
  intros Hno. unfold getPresetQuery, getPresetQuery_try, ObjectId.isValid.
  destruct (ObjectId.construct id) as [oid|] eqn:Hc; [|reflexivity].
  destruct (String.eqb (ObjectId.toString oid) id) eqn:He; [|reflexivity].
  exfalso. apply String.eqb_eq in He.
  unfold ObjectId.construct in Hc.
  destruct ((String.length id =? 24)%nat
            && ObjectId.allChars ObjectId.isHexDigit id) eqn:E.
  - apply andb_true_iff in E as [Hlen Hhex].
    pose proof Hlen as Hlen'. apply Nat.eqb_eq in Hlen'.
    destruct (construct_hex id Hlen' Hhex) as (oid' & Hc' & Hs & _).
    unfold ObjectId.construct in Hc'. rewrite Hlen, Hhex in Hc'. simpl in Hc'.
    rewrite Hc in Hc'. injection Hc' as <-.
    rewrite He in Hs. symmetry in Hs. apply toLowerCase_fixed in Hs.
    rewrite isStoreGeneratedId_spec, Hlen, Hhex, Hs in Hno. discriminate.
  - destruct (String.length id =? 12)%nat eqn:E12; [|discriminate].
    injection Hc as <-. apply Nat.eqb_eq in E12.
    assert (String.length (ObjectId.toString (ObjectId.mk (ObjectId.bytesOfChars id)))
            = 24%nat) as H
      by (unfold ObjectId.toString; simpl;
          rewrite hexOfBytes_length, bytesOfChars_length; lia).
    rewrite He in H. lia.
Qed.

(** C5 (as the code has it): an identifier of twenty-four lowercase
    hexadecimal digits is looked up by primary key, the key being the twelve
    bytes the digits spell; every other string, whether the driver rejects
    it or not, is looked up by the legacy [id] field under the string
    itself.  The resolver is a total function of its argument, so it never
    fails and answers the same on the same input. *)
Theorem C5_resolve_lookup (id : string) :
  (isStoreGeneratedId id = true ->
   exists oid, getPresetQuery id = PrimaryKey oid
               /\ ObjectId.toString oid = id
               /\ List.length (ObjectId.bytes oid) = 12%nat)
  /\ (isStoreGeneratedId id = false -> getPresetQuery id = LegacyKey id)
  /\ (ObjectId.construct id = None -> getPresetQuery id = LegacyKey id)
  /\ (exists key, getPresetQuery id = key
                  /\ forall key', getPresetQuery id = key' -> key' = key).
Proof.
  split; [apply getPresetQuery_store_generated|].
  split; [apply getPresetQuery_legacy|]. split.
  - intros H. unfold getPresetQuery, getPresetQuery_try, ObjectId.isValid.
    now rewrite H.
  - exists (getPresetQuery id). split; [reflexivity | now intros key' <-].
Qed.

Lemma C5_resolve_lookup_witness :
  (exists oid, getPresetQuery "0123456789abcdef01234567" = PrimaryKey oid
               /\ ObjectId.toString oid = "0123456789abcdef01234567"
               /\ List.length (ObjectId.bytes oid) = 12%nat)
  /\ getPresetQuery "default-1" = LegacyKey "default-1".
Proof.
  split.
  - apply (proj1 (C5_resolve_lookup "0123456789abcdef01234567")). reflexivity.
  - apply (proj1 (proj2 (C5_resolve_lookup "default-1"))). reflexivity.
Defined.

(** C5, where the sentence of the specification does not hold: twenty-four
    hexadecimal digits with an uppercase letter among them are accepted by
    the driver but do not read back as written, so the lookup is the legacy
    one. *)
Lemma C5_counterexample :
  String.length "0123456789ABCDEF01234567" = 24%nat
  /\ ObjectId.allChars ObjectId.isHexDigit "0123456789ABCDEF01234567" = true
  /\ getPresetQuery "0123456789ABCDEF01234567"
     = LegacyKey "0123456789ABCDEF01234567".
Proof. repeat split. Qed.

(** ** Searching presets *)

Lemma compile_plain (q : string) :
  plainQuery q = true -> Regex.compile q = Some (literalPattern q).
Proof.
  unfold plainQuery. induction q as [|c r IH]; simpl; [reflexivity|].
  intros H. apply andb_true_iff in H as [H Hr].
  apply andb_true_iff in H as [Hop Hdot].
  apply negb_true_iff in Hop, Hdot. rewrite Hop, Hdot, (IH Hr). reflexivity.
Qed.

Lemma matchesHere_literal (q s : string) :
  Regex.matchesHere (literalPattern q) s
  = startsWith (Js.toLowerCase q) (Js.toLowerCase s).
Proof.
  revert s. induction q as [|c r IH]; intros [|d s]; try reflexivity.
  cbn. now rewrite IH.
Qed.

Lemma test_literal (q s : string) :
  Regex.test (literalPattern q) s = includesIgnoringCase q s.
Proof.
  unfold includesIgnoringCase. induction s as [|d s IH].
  - cbn [Regex.test]. rewrite matchesHere_literal. reflexivity.
  - cbn [Regex.test]. rewrite matchesHere_literal, IH. reflexivity.
Qed.

Lemma presetMatchesRegex_literal (q : string) (preset : Preset) :
  presetMatchesRegex (literalPattern q) preset = matchesAnyFieldb preset q.
Proof.
  unfold presetMatchesRegex, matchesAnyFieldb. rewrite test_literal.
  f_equal; [f_equal|].
  - destruct (preset_brandName preset); [apply test_literal | reflexivity].
  - induction (preset_ingredients preset) as [|i l IH]; simpl;
      [reflexivity | now rewrite test_literal, IH].
Qed.

Lemma matchesAnyFieldb_spec (preset : Preset) (q : string) :
  matchesAnyFieldb preset q = true <-> matchesAnyField preset q.
Proof.
  unfold matchesAnyFieldb, matchesAnyField, substringIgnoringCase,
    includesIgnoringCase.
  rewrite !orb_true_iff, includes_spec, existsb_exists. split.
  - intros [[H|H]|(i & Hi & H)].
    + now left.
    + right; left. destruct (preset_brandName preset) as [brand|];
        [|discriminate]. exists brand. split; [reflexivity|].
      now apply includes_spec.
    + right; right. exists i. split; [exact Hi | now apply includes_spec].
  - intros [H|[(brand & Hb & H)|(i & Hi & H)]].
    + now left; left.
    + left; right. rewrite Hb. now apply includes_spec.
    + right. exists i. split; [exact Hi | now apply includes_spec].
Qed.

Lemma plain_not_rejected (q : string) :
  plainQuery q = true -> Regex.rejected q = false.
Proof.
  intros H. unfold Regex.rejected.
  assert (Regex.contains "(" q = false) as ->; [|reflexivity].
  unfold plainQuery in H. induction q as [|c r IH]; [reflexivity|].
  cbn [ObjectId.allChars] in H. apply andb_true_iff in H as [H Hr].
  apply andb_true_iff in H as [Hop _]. apply negb_true_iff in Hop.
  cbn [Regex.contains]. rewrite (IH Hr), orb_false_r.
  destruct (Ascii.eqb_spec c "("%char) as [->|]; [discriminate Hop | reflexivity].
Qed.

(** C6 (as the code has it): a query that is empty or all white space
    matches every preset; otherwise the query is trimmed first, and when the
    trimmed query has no regular-expression syntax in it the preset is
    returned exactly when the trimmed query is a case-insensitive substring
    of the name, of the brand name if there is one, or of an ingredient. *)
Theorem C6_search_matches (preset : Preset) (q : string) :
  (Js.trim q = "" -> searchMatches preset q = Returned true)
  /\ (Js.trim q <> "" -> plainQuery (Js.trim q) = true ->
      exists b, searchMatches preset q = Returned b
                /\ (b = true <-> matchesAnyField preset (Js.trim q))).
Proof.
  assert (Js.orElse q "" = q) as Hq by (destruct q; reflexivity).
  unfold searchMatches. rewrite Hq. split.
  - intros ->. reflexivity.
  - intros Hne Hplain. apply isEmpty_false in Hne. unfold Js.truthy.
    rewrite Hne, (plain_not_rejected _ Hplain), (compile_plain _ Hplain).
    cbn [negb].
    exists (presetMatchesRegex (literalPattern (Js.trim q)) preset).
    split; [reflexivity|].
    rewrite presetMatchesRegex_literal. apply matchesAnyFieldb_spec.
Qed.

Lemma C6_search_matches_witness :
  let preset := mkPreset "default-2" "Spices" None ["Cinnamon"] in
  searchMatches preset "   " = Returned true
  /\ exists b, searchMatches preset " cinn" = Returned b
               /\ (b = true <-> matchesAnyField preset "cinn").
Proof.
  intros preset. split.
  - apply (proj1 (C6_search_matches preset "   ")). reflexivity.
  - apply (proj2 (C6_search_matches preset " cinn")).
    + discriminate.
    + reflexivity.
Defined.

(** C6, where the sentence of the specification does not hold: white space
    around the query is dropped before matching, so a preset is returned
    although the query as given is not a substring of any of its fields. *)
Lemma C6_counterexample :
  let preset := mkPreset "default-2" "Spices" None ["Cinnamon"] in
  searchMatches preset " cinn" = Returned true
  /\ ~ matchesAnyField preset " cinn".
Proof.
  intros preset. split; [reflexivity|].
  intros H. apply matchesAnyFieldb_spec in H. discriminate H.
Qed.

(** The query reaches the store as a regular expression, not as the text to
    look for: a dot stands for any character, and a pattern that does not
    compile makes the request fail. *)
Lemma search_query_is_a_pattern :
  let preset := mkPreset "default-2" "Spices" None ["Cinnamon"] in
  (searchMatches preset "s.ices" = Returned true
   /\ ~ matchesAnyField preset "s.ices")
  /\ searchMatches preset "(" = ServerError
  /\ searchPresets [preset] "(" = ServerError.
Proof.
  intros preset. repeat split; try reflexivity.
  intros H. apply matchesAnyFieldb_spec in H. discriminate H.
Qed.

(** ** Rendering *)


Lemma join_head_truthy (sep x : string) (rest : list string) :
  Js.truthy x = true -> Js.truthy (Js.join sep (x :: rest)) = true.
Proof.
  destruct x as [|c r]; [discriminate|]. intros _.
  destruct rest; reflexivity.
Qed.

Lemma plainAddressParts_truthy (l : Label) :
  Js.truthy (label_businessName l) = true ->
  Js.truthy (plainAddressParts l) = true.
Proof.
  intros H. unfold plainAddressParts. cbn [filter]. rewrite H.
  now apply join_head_truthy.
Qed.




Lemma buildFullLabelText_sections (l : Label) :
  buildFullLabelText l
  = Js.join newline
      (map (plainSection l) (filter (backingPresent l) sectionOrder)).
Proof.
  unfold buildFullLabelText, plainLines, plainCleanIngredients.
  cbn [sectionOrder filter backingPresent].
  destruct (Js.truthy (label_businessName l)) eqn:Hb;
    [rewrite (plainAddressParts_truthy l Hb)|];
    destruct (Js.truthy (label_name l)),
      (Js.truthy (stripBracketsFromIngredients (label_text l))),
      (label_allergens l) as [|a al] eqn:Ha,
      (Js.truthy (label_netQuantity l)),
      (label_includeCottageDisclaimer l);
    reflexivity.
Qed.











(** * Further properties *)

(** ** White-space normalization ([stripBracketsFromIngredients]) *)

Lemma spacesSingle_weaken (b : bool) (s : string) :
  spacesSingle b s = true -> spacesSingle false s = true.
Proof.
  destruct s as [|c r]; [reflexivity|]. cbn [spacesSingle].
  destruct (Js.isWhiteSpace c); [|exact (fun H => H)].
  destruct b; [now rewrite andb_false_r | exact (fun H => H)].
Qed.

Lemma collapseFrom_single (s : string) : forall b,
  spacesSingle b (Js.collapseFrom b s) = true.
Proof.
  induction s as [|c r IH]; intros b; [reflexivity|].
  cbn [Js.collapseFrom]. destruct (Js.isWhiteSpace c) eqn:E.
  - destruct b; [apply IH|]. cbn [spacesSingle]. now rewrite (IH true).
  - cbn [spacesSingle]. rewrite E. apply IH.
Qed.

Lemma collapseFrom_fixed (s : string) : forall b,
  spacesSingle b s = true -> Js.collapseFrom b s = s.
Proof.
  induction s as [|c r IH]; intros b H; [reflexivity|].
  cbn [spacesSingle Js.collapseFrom] in *.
  destruct (Js.isWhiteSpace c).
  - apply andb_true_iff in H as [H Hr]. apply andb_true_iff in H as [Hc Hb].
    apply Ascii.eqb_eq in Hc. subst c. destruct b; [discriminate|].
    now rewrite (IH true Hr).
  - now rewrite (IH false H).
Qed.

Lemma trimStart_single (s : string) (b : bool) :
  spacesSingle b s = true -> spacesSingle false (Js.trimStart s) = true.
Proof.
  revert b. induction s as [|c r IH]; intros b H; [reflexivity|].
  cbn [Js.trimStart]. destruct (Js.isWhiteSpace c) eqn:E.
  - cbn [spacesSingle] in H. rewrite E in H.
    apply andb_true_iff in H as [_ H]. now apply (IH true).
  - now apply (spacesSingle_weaken b).
Qed.

Lemma trimEnd_single (s : string) : forall b,
  spacesSingle b s = true -> spacesSingle b (Js.trimEnd s) = true.
Proof.
  induction s as [|c r IH]; intros b H; [reflexivity|].
  cbn [Js.trimEnd].
  destruct (Js.isWhiteSpace c && Js.isEmpty (Js.trimEnd r)); [reflexivity|].
  cbn [spacesSingle] in *. destruct (Js.isWhiteSpace c).
  - apply andb_true_iff in H as [H Hr]. now rewrite H, (IH true Hr).
  - now apply IH.
Qed.

Lemma trim_single (s : string) :
  spacesSingle false s = true -> spacesSingle false (Js.trim s) = true.
Proof.
  intros H. unfold Js.trim. apply trimEnd_single.
  now apply (trimStart_single s false).
Qed.

(** X1: the normalized text has no white space at either end, and inside it
    white space occurs only as single spaces. *)
Theorem stripBrackets_normal_form (text : string) :
  Js.trim (stripBracketsFromIngredients text)
  = stripBracketsFromIngredients text
  /\ spacesSingle false (stripBracketsFromIngredients text) = true.
Proof.
  unfold stripBracketsFromIngredients.
  destruct (Js.isEmpty text); [now split|]. split.
  - apply trim_idem.
  - apply trim_single. apply (collapseFrom_single text false).
Qed.

(** X2: normalizing is idempotent: a text that has been normalized is left
    as it is. *)
Theorem stripBrackets_idempotent (text : string) :
  stripBracketsFromIngredients (stripBracketsFromIngredients text)
  = stripBracketsFromIngredients text.
Proof.
  destruct (stripBrackets_normal_form text) as [Ht Hs].
  set (r := stripBracketsFromIngredients text) in *.
  unfold stripBracketsFromIngredients at 1.
  destruct (Js.isEmpty r) eqn:E; [now apply isEmpty_true in E|].
  unfold Js.collapseWhiteSpace. now rewrite (collapseFrom_fixed r false Hs).
Qed.

(** ** Escaping ([escapeHtml]) *)

Lemma occurs_app (c : ascii) (a b : string) :
  occurs c (a ++ b) = occurs c a || occurs c b.
Proof.
  induction a as [|x r IH]; simpl; [reflexivity|].
  now rewrite IH, orb_assoc.
Qed.

Lemma escapeChar_no_markup (c : ascii) :
  occurs "<" (Dom.escapeChar c) = false
  /\ occurs ">" (Dom.escapeChar c) = false.
Proof. each_ascii c; split; reflexivity. Qed.

(** X3: escaped text never holds an angle bracket, whatever the input. *)
Theorem escapeHtml_no_markup (text : string) :
  occurs "<" (escapeHtml text) = false
  /\ occurs ">" (escapeHtml text) = false.
Proof.
  unfold escapeHtml. induction text as [|c r [IH1 IH2]]; [now split|].
  cbn [Dom.serializeText]. rewrite !occurs_app, IH1, IH2.
  destruct (escapeChar_no_markup c) as [-> ->]. now split.
Qed.

Lemma escapeChar_cases (c : ascii) :
  (c = "&"%char /\ Dom.escapeChar c = "&amp;")
  \/ (c = "<"%char /\ Dom.escapeChar c = "&lt;")
  \/ (c = ">"%char /\ Dom.escapeChar c = "&gt;")
  \/ (c <> "&"%char /\ Dom.escapeChar c = String c "").
Proof.
  unfold Dom.escapeChar.
  destruct (Ascii.eqb_spec c "&"%char) as [->|H1]; [now left|].
  destruct (Ascii.eqb_spec c "<"%char) as [->|H2]; [now right; left|].
  destruct (Ascii.eqb_spec c ">"%char) as [->|H3]; [now right; right; left|].
  now right; right; right.
Qed.

Lemma escapeChar_prefix_inj (c d : ascii) (x y : string) :
  (Dom.escapeChar c ++ x)%string = (Dom.escapeChar d ++ y)%string ->
  c = d /\ x = y.
Proof.
  destruct (escapeChar_cases c) as [[-> ->]|[[-> ->]|[[-> ->]|[Hc ->]]]];
    destruct (escapeChar_cases d) as [[-> ->]|[[-> ->]|[[-> ->]|[Hd ->]]]];
    cbn [String.append]; intros H;
    try discriminate H;
    try (injection H as <-; now split);
    try (injection H as H _; congruence).
Qed.

(** X4: escaping loses nothing: two texts with the same escaped form are the
    same text. *)
Theorem escapeHtml_injective (a b : string) :
  escapeHtml a = escapeHtml b -> a = b.
Proof.
  unfold escapeHtml. revert b.
  induction a as [|c r IH]; intros [|d s] H; cbn [Dom.serializeText] in H.
  - reflexivity.
  - exfalso. destruct (escapeChar_cases d) as [[_ E]|[[_ E]|[[_ E]|[_ E]]]];
      rewrite E in H; discriminate H.
  - exfalso. destruct (escapeChar_cases c) as [[_ E]|[[_ E]|[[_ E]|[_ E]]]];
      rewrite E in H; discriminate H.
  - apply escapeChar_prefix_inj in H as [<- H]. f_equal. now apply IH.
Qed.

Lemma escapeHtml_injective_witness : "a<b & c" = "a<b & c".
Proof. apply (escapeHtml_injective "a<b & c" "a<b & c"). reflexivity. Defined.

(** ** Parsing ingredient lists ([parseIngredients]) and the ingredient
    form *)

Lemma parseIngredients_tokens (text : string) :
  parseIngredients text = additionalTokens text.
Proof.
  unfold parseIngredients.
  destruct (Js.isEmpty text) eqn:E; [apply isEmpty_true in E; now subst|].
  destruct (Js.isEmpty (Js.trim text)) eqn:F; cbn [orb].
  - apply isEmpty_true in F. now rewrite (additionalTokens_blank _ F).
  - unfold additionalTokens. apply filter_ext. intros a.
    apply nonEmpty_isEmpty.
Qed.

Lemma trimStart_occurs (c : ascii) (s : string) :
  occurs c s = false -> occurs c (Js.trimStart s) = false.
Proof.
  induction s as [|d r IH]; [reflexivity|]. intros H.
  cbn [Js.trimStart]. destruct (Js.isWhiteSpace d); [|exact H].
  cbn [occurs] in H. apply orb_false_iff in H as [_ H]. now apply IH.
Qed.

Lemma trimEnd_occurs (c : ascii) (s : string) :
  occurs c s = false -> occurs c (Js.trimEnd s) = false.
Proof.
  induction s as [|d r IH]; [reflexivity|]. intros H.
  cbn [occurs] in H. apply orb_false_iff in H as [H1 H2].
  cbn [Js.trimEnd].
  destruct (Js.isWhiteSpace d && Js.isEmpty (Js.trimEnd r)); [reflexivity|].
  cbn [occurs]. now rewrite H1, (IH H2).
Qed.

Lemma trim_occurs (c : ascii) (s : string) :
  occurs c s = false -> occurs c (Js.trim s) = false.
Proof. intros H. now apply trimEnd_occurs, trimStart_occurs. Qed.

Lemma split_comma_pieces_plain (s piece : string) :
  In piece (Js.split_comma s) -> occurs "," piece = false.
Proof.
  revert piece. induction s as [|c r IH]; intros piece.
  - intros [<-|[]]. reflexivity.
  - cbn [Js.split_comma]. destruct (Ascii.eqb c ",") eqn:E.
    + intros [<-|H]; [reflexivity | now apply IH].
    + destruct (split_comma_cons r) as (p & ps & Hp). rewrite Hp in *.
      intros [<-|H].
      * cbn [occurs]. rewrite E. apply IH. now left.
      * apply IH. now right.
Qed.

(** X5: every token of a parsed ingredient text is trimmed, not empty and
    free of commas. *)
Theorem parseIngredients_clean (text token : string) :
  In token (parseIngredients text) ->
  Js.trim token = token /\ token <> "" /\ occurs "," token = false.
Proof.
  rewrite parseIngredients_tokens. unfold additionalTokens. intros H.
  apply filter_In in H as [H Hne]. apply in_map_iff in H as (piece & <- & H).
  split; [apply trim_idem|]. split.
  - now apply negb_true_iff, isEmpty_false in Hne.
  - apply trim_occurs. now apply (split_comma_pieces_plain text).
Qed.

Lemma parseIngredients_clean_witness :
  Js.trim "Sugar" = "Sugar" /\ "Sugar" <> "" /\ occurs "," "Sugar" = false.
Proof.
  apply (parseIngredients_clean " Flour ,Sugar,, " "Sugar").
  simpl. auto.
Defined.

Lemma split_comma_plain (s : string) :
  occurs "," s = false -> Js.split_comma s = [s].
Proof.
  induction s as [|c r IH]; [reflexivity|]. intros H.
  cbn [occurs] in H. apply orb_false_iff in H as [H1 H2].
  cbn [Js.split_comma]. now rewrite H1, (IH H2).
Qed.

Lemma split_comma_app (a b : string) :
  occurs "," a = false ->
  Js.split_comma (a ++ String "," b) = a :: Js.split_comma b.
Proof.
  induction a as [|c r IH]; [reflexivity|]. intros H.
  cbn [occurs] in H. apply orb_false_iff in H as [H1 H2].
  cbn [String.append Js.split_comma]. now rewrite H1, (IH H2).
Qed.

Lemma split_comma_of_join (items : list string) : forall lead : bool,
  items <> [] ->
  (forall i, In i items -> occurs "," i = false) ->
  Js.split_comma ((if lead then " " else "") ++ Js.join ", " items)
  = spaced lead items.
Proof.
  induction items as [|x rest IH]; intros lead Hne H; [contradiction|].
  assert (occurs "," ((if lead then " " else "") ++ x) = false) as Hx
    by (destruct lead; cbn; apply H; now left).
  destruct rest as [|y rest'].
  - cbn [Js.join spaced map]. rewrite (split_comma_plain _ Hx).
    destruct lead; reflexivity.
  - rewrite join_cons2.
    replace ((if lead then " " else "") ++ x ++ ", " ++ Js.join ", " (y :: rest'))%string
      with (((if lead then " " else "") ++ x)
            ++ String "," (" " ++ Js.join ", " (y :: rest')))%string
      by (now rewrite str_app_assoc).
    rewrite (split_comma_app _ _ Hx), (IH true).
    + destruct lead; reflexivity.
    + discriminate.
    + intros i Hi. apply H. now right.
Qed.

Lemma additionalTokens_of_join (tokens : list string) :
  (forall t, In t tokens ->
     Js.trim t = t /\ t <> "" /\ occurs "," t = false) ->
  additionalTokens (Js.join ", " tokens) = tokens.
Proof.
  intros H. destruct tokens as [|x rest] eqn:E; [reflexivity|].
  rewrite <- E in *. unfold additionalTokens.
  assert (tokens <> []) as Hne by (rewrite E; discriminate).
  pose proof (split_comma_of_join tokens false Hne
                (fun i Hi => proj2 (proj2 (H i Hi)))) as Hs.
  change (Js.split_comma (Js.join ", " tokens) = spaced false tokens) in Hs.
  rewrite Hs, (trim_spaced tokens false (fun i Hi => proj1 (H i Hi))).
  apply filter_all. intros t Ht.
  now apply negb_true_iff, isEmpty_false, (H t Ht).
Qed.

(** X6: a list of clean tokens (trimmed, not empty, without comma) written
    out with comma and space is parsed back to the same list. *)
Theorem parseIngredients_of_join (tokens : list string)
    (Hclean : forall t, In t tokens ->
                Js.trim t = t /\ t <> "" /\ occurs "," t = false) :
  parseIngredients (Js.trim (Js.join ", " tokens)) = tokens.
Proof.
  rewrite parseIngredients_tokens, additionalTokens_trim.
  now apply additionalTokens_of_join.
Qed.

Lemma parseIngredients_of_join_witness :
  parseIngredients (Js.trim (Js.join ", " ["Flour"; "Baking Soda"]))
  = ["Flour"; "Baking Soda"].
Proof.
  apply (parseIngredients_of_join ["Flour"; "Baking Soda"]).
  intros t [<-|[<-|[]]]; repeat split; discriminate.
Defined.

(** X7: an ingredient saved through the form, opened for editing and saved
    again without a change keeps its name, brand and ingredient list. *)
Theorem edit_then_submit_unchanged (form : PresetForm) (data : PresetData)
    (id : string)
    (Hsubmit : handlePresetSubmit form = Some data) :
  handlePresetSubmit
    (editPreset (mkPreset id (data_name data) (Some (data_brandName data))
                          (data_ingredients data)))
  = Some data.
Proof.
  unfold handlePresetSubmit, validatePresetForm in *.
  destruct (String.eqb_spec (Js.trim (presetName form)) "") as [|Hne];
    [discriminate|].
  cbn [negb] in Hsubmit. injection Hsubmit as <-.
  cbn [editPreset preset_name preset_brandName preset_ingredients
       presetName presetBrandName presetIngredients
       data_name data_brandName data_ingredients].
  assert (Js.orElse (Js.trim (presetBrandName form)) ""
          = Js.trim (presetBrandName form)) as ->
    by (unfold Js.orElse; now destruct (Js.trim (presetBrandName form))).
  rewrite !trim_idem.
  destruct (String.eqb_spec (Js.trim (presetName form)) "") as [|_];
    [contradiction|].
  cbn [negb]. do 2 f_equal.
  apply parseIngredients_of_join. intros t. apply parseIngredients_clean.
Qed.

Lemma edit_then_submit_unchanged_witness :
  handlePresetSubmit
    (editPreset (mkPreset "p1" "Spices" (Some "Acme") ["Cinnamon"; "Nutmeg"]))
  = Some (mkPresetData "Spices" "Acme" ["Cinnamon"; "Nutmeg"]).
Proof.
  apply (edit_then_submit_unchanged
           (mkPresetForm " Spices" "Acme " "Cinnamon , Nutmeg,")
           (mkPresetData "Spices" "Acme" ["Cinnamon"; "Nutmeg"]) "p1").
  reflexivity.
Defined.

(** ** Aggregation, further *)

Lemma presetFlatItems_cons (preset : Preset) :
  exists x rest, presetFlatItems preset = x :: rest.
Proof.
  unfold presetFlatItems. destruct (preset_ingredients preset) eqn:E; eauto.
Qed.

(** The flattened list is empty exactly when no selected preset is loaded
    and the additional text has no token. *)
Lemma collectAllIngredients_empty_iff (app : Form) :
  collectAllIngredients app = []
  <-> selectedPresets app = []
      /\ additionalTokens (additionalIngredients app) = [].
Proof.
  rewrite collectAllIngredients_spec. split.
  - intros H. apply app_eq_nil in H as [H1 H2]. split; [|exact H2].
    destruct (selectedPresets app) as [|p rest]; [reflexivity|].
    cbn [flat_map] in H1. destruct (presetFlatItems_cons p) as (x & r & E).
    rewrite E in H1. discriminate.
  - intros [-> ->]. reflexivity.
Qed.

Lemma selectedPresets_loadedIds (ps : list Preset) (ids : list string)
    (text text' : string) :
  selectedPresets (mkForm ps (loadedIds (mkForm ps ids text)) text')
  = selectedPresets (mkForm ps ids text).
Proof.
  unfold selectedPresets, loadedIds, getSelectedPresets, getPresetById.
  cbn [presets checkedPresetIds].
  induction ids as [|id rest IH]; [reflexivity|]. cbn [filter flat_map].
  destruct (find (fun preset => String.eqb (preset_id preset) id) ps) eqn:E.
  - cbn [flat_map]. now rewrite E, IH.
  - exact IH.
Qed.

(** X9: a checked identifier that names no loaded preset contributes
    nothing: dropping those identifiers changes neither the flattened list
    nor the canonical expression. *)
Theorem unknown_ids_are_skipped (app : Form) :
  let app' := mkForm (presets app) (loadedIds app) (additionalIngredients app) in
  collectAllIngredients app' = collectAllIngredients app
  /\ buildFormattedLabelText app' = buildFormattedLabelText app.
Proof.
  destruct app as [ps ids text]. cbn [presets additionalIngredients].
  rewrite !collectAllIngredients_spec, !buildFormattedLabelText_spec.
  rewrite selectedPresets_loadedIds. split; reflexivity.
Qed.

(** ** The parser on what the aggregator writes *)

Lemma noTopComma_app (a b : string) : forall d,
  noTopComma d (a ++ b) = noTopComma d a && noTopComma (endDepth d a) b.
Proof.
  induction a as [|c r IH]; intros d; [reflexivity|].
  cbn [String.append noTopComma endDepth]. now rewrite IH, andb_assoc.
Qed.

Lemma endDepth_app (a b : string) : forall d,
  endDepth d (a ++ b) = endDepth (endDepth d a) b.
Proof.
  induction a as [|c r IH]; intros d; [reflexivity|].
  cbn [String.append endDepth]. apply IH.
Qed.

Lemma parenFree_cons (c : ascii) (r : string) :
  parenFree (String c r) = true ->
  Ascii.eqb c "(" = false /\ Ascii.eqb c ")" = false /\ parenFree r = true.
Proof.
  unfold parenFree. cbn [occurs]. rewrite !andb_true_iff, !negb_true_iff.
  rewrite !orb_false_iff. intros [[H1 H2] [H3 H4]].
  now rewrite H1, H2, H3, H4.
Qed.

Lemma parenFree_app (a b : string) :
  parenFree (a ++ b) = parenFree a && parenFree b.
Proof.
  unfold parenFree. rewrite !occurs_app.
  destruct (occurs "(" a), (occurs ")" a), (occurs "(" b), (occurs ")" b);
    reflexivity.
Qed.

Lemma depthAfter_other (d : Z) (c : ascii) :
  Ascii.eqb c "(" = false -> Ascii.eqb c ")" = false -> depthAfter d c = d.
Proof. intros H1 H2. unfold depthAfter. now rewrite H1, H2. Qed.

Lemma endDepth_parenFree (s : string) : forall d,
  parenFree s = true -> endDepth d s = d.
Proof.
  induction s as [|c r IH]; intros d H; [reflexivity|].
  apply parenFree_cons in H as (H1 & H2 & H3).
  cbn [endDepth]. rewrite (depthAfter_other d c H1 H2). now apply IH.
Qed.

Lemma noTopComma_deep (s : string) (d : Z) :
  parenFree s = true -> d <> 0%Z -> noTopComma d s = true.
Proof.
  intros H Hd. induction s as [|c r IH]; [reflexivity|].
  apply parenFree_cons in H as (H1 & H2 & H3).
  cbn [noTopComma]. rewrite (depthAfter_other d c H1 H2), (IH H3).
  apply Z.eqb_neq in Hd. rewrite Hd. now rewrite andb_false_r.
Qed.

Lemma noTopComma_plain (s : string) (d : Z) :
  parenFree s = true -> occurs "," s = false -> noTopComma d s = true.
Proof.
  intros H Hc. induction s as [|c r IH]; [reflexivity|].
  apply parenFree_cons in H as (H1 & H2 & H3).
  cbn [occurs] in Hc. apply orb_false_iff in Hc as [Hc Hr].
  cbn [noTopComma]. rewrite (depthAfter_other d c H1 H2), (IH H3 Hr), Hc.
  reflexivity.
Qed.

Lemma parenFree_join (items : list string) :
  (forall i, In i items -> parenFree i = true) ->
  parenFree (Js.join ", " items) = true.
Proof.
  induction items as [|x [|y rest] IH]; intros H.
  - reflexivity.
  - apply H. now left.
  - rewrite join_cons2, !parenFree_app, (H x (or_introl eq_refl)).
    rewrite IH by (intros i Hi; apply H; now right). reflexivity.
Qed.

Lemma trimStart_length (s : string) :
  (String.length (Js.trimStart s) <= String.length s)%nat.
Proof.
  induction s as [|c r IH]; [apply Nat.le_refl|].
  cbn [Js.trimStart]. destruct (Js.isWhiteSpace c); simpl; lia.
Qed.

Lemma trimEnd_length (s : string) :
  (String.length (Js.trimEnd s) <= String.length s)%nat.
Proof.
  induction s as [|c r IH]; [apply Nat.le_refl|].
  cbn [Js.trimEnd].
  destruct (Js.isWhiteSpace c && Js.isEmpty (Js.trimEnd r)); simpl; lia.
Qed.

Lemma trimmed_first (c : ascii) (r : string) :
  Js.trim (String c r) = String c r -> Js.isWhiteSpace c = false.
Proof.
  intros H. destruct (Js.isWhiteSpace c) eqn:E; [|reflexivity].
  exfalso. rewrite (trim_space_cons c r E) in H.
  apply (f_equal String.length) in H. unfold Js.trim in H.
  pose proof (trimEnd_length (Js.trimStart r)).
  pose proof (trimStart_length r). simpl in H. lia.
Qed.

Lemma trimmed_end (s : string) : Js.trim s = s -> Js.trimEnd s = s.
Proof.
  intros H. destruct s as [|c r]; [reflexivity|].
  pose proof (trimmed_first c r H) as E.
  unfold Js.trim in H. cbn [Js.trimStart] in H. now rewrite E in H.
Qed.

Lemma trimEnd_app_nonblank (x b : string) :
  Js.isEmpty (Js.trimEnd b) = false ->
  Js.trimEnd (x ++ b) = (x ++ Js.trimEnd b)%string.
Proof.
  intros H. induction x as [|c r IH]; [reflexivity|].
  cbn [String.append Js.trimEnd]. rewrite IH.
  assert (Js.isEmpty (r ++ Js.trimEnd b) = false) as ->
    by (destruct r; [exact H | reflexivity]).
  now rewrite andb_false_r.
Qed.

Lemma trimEnd_app_space (x : string) :
  Js.trimEnd (x ++ " ") = Js.trimEnd x.
Proof.
  induction x as [|c r IH]; [reflexivity|].
  cbn [String.append Js.trimEnd]. now rewrite IH.
Qed.

Lemma trim_between (c : ascii) (r b : string) :
  Js.isWhiteSpace c = false ->
  Js.isEmpty (Js.trimEnd b) = false ->
  Js.trim (String c r ++ b) = (String c r ++ Js.trimEnd b)%string.
Proof.
  intros Hc Hb. unfold Js.trim. cbn [String.append Js.trimStart].
  rewrite Hc. change (String c (r ++ b)) with (String c r ++ b)%string.
  now apply trimEnd_app_nonblank.
Qed.

Lemma plainName_whole (n : string) : plainName n -> wholeItem n.
Proof.
  intros (Ht & Hne & Hc & Hp). repeat split; [exact Ht | exact Hne | |].
  - now apply noTopComma_plain.
  - now apply endDepth_parenFree.
Qed.

Lemma presetExpressionItem_whole (preset : Preset) :
  plainName (preset_name preset) ->
  (forall sub, In sub (preset_ingredients preset) -> parenFree sub = true) ->
  wholeItem (presetExpressionItem preset).
Proof.
  intros Hn Hs. unfold presetExpressionItem.
  destruct (preset_ingredients preset) as [|s0 subs] eqn:E;
    [now apply plainName_whole|].
  rewrite <- E in *. clear E s0 subs.
  pose proof (parenFree_join _ Hs) as Hj.
  destruct Hn as (Ht & Hne & Hc & Hp).
  set (n := preset_name preset) in *.
  set (J := Js.join ", " (preset_ingredients preset)) in *.
  destruct n as [|c r] eqn:En; [contradiction|]. rewrite <- En in *.
  assert (Js.isWhiteSpace c = false) as Hw
    by (rewrite En in Ht; now apply trimmed_first in Ht).
  repeat split.
  - rewrite En.
    replace (String c r ++ " (" ++ J ++ ")")%string
      with (String c r ++ ((" (" ++ J) ++ ")"))%string
      by (now rewrite !str_app_assoc).
    rewrite (trim_between c r _ Hw).
    + now rewrite (trimEnd_app_nonblank (" (" ++ J) ")" eq_refl).
    + now rewrite (trimEnd_app_nonblank (" (" ++ J) ")" eq_refl).
  - rewrite En. discriminate.
  - rewrite noTopComma_app, (noTopComma_plain n 0 Hp Hc).
    rewrite (endDepth_parenFree n 0 Hp).
    change (" (" ++ J ++ ")")%string with (" (" ++ (J ++ ")"))%string.
    rewrite noTopComma_app. cbn [andb].
    change (endDepth 0 " (") with 1%Z. rewrite noTopComma_app.
    rewrite (noTopComma_deep J 1 Hj) by lia.
    now rewrite (endDepth_parenFree J 1 Hj).
  - rewrite endDepth_app, (endDepth_parenFree n 0 Hp).
    change (" (" ++ J ++ ")")%string with (" (" ++ (J ++ ")"))%string.
    rewrite endDepth_app. change (endDepth 0 " (") with 1%Z.
    now rewrite endDepth_app, (endDepth_parenFree J 1 Hj).
Qed.

Lemma additionalTokens_clean (text token : string) :
  In token (additionalTokens text) ->
  Js.trim token = token /\ token <> "" /\ occurs "," token = false.
Proof. rewrite <- parseIngredients_tokens. apply parseIngredients_clean. Qed.

Lemma expressionItems_whole (app : Form) :
  plainSelection app ->
  forall x,
    In x (map presetExpressionItem (selectedPresets app)
          ++ additionalTokens (additionalIngredients app)) ->
    wholeItem x.
Proof.
  intros [Hp Ht] x Hx. apply in_app_or in Hx as [Hx|Hx].
  - apply in_map_iff in Hx as (p & <- & Hin).
    destruct (Hp p Hin) as [Hn Hs]. now apply presetExpressionItem_whole.
  - destruct (additionalTokens_clean _ _ Hx) as (H1 & H2 & H3).
    pose proof (Ht x Hx) as H4. repeat split; [exact H1 | exact H2 | |].
    + now apply noTopComma_plain.
    + now apply endDepth_parenFree.
Qed.

Lemma splitTopLevel_of_whole_items (items : list string) :
  (forall x, In x items -> wholeItem x) ->
  splitTopLevel (Js.join ", " items) = items.
Proof.
  intros H. destruct items as [|x rest] eqn:E; [reflexivity|].
  rewrite <- E in *. assert (items <> []) as Hne by (rewrite E; discriminate).
  apply splitTopLevel_of_join.
  - apply pieceList_forall. split; [exact Hne|]. split.
    + intros i Hi. apply (H i Hi).
    + intros i Hi. apply (H i).
      rewrite (app_removelast_last "" Hne). apply in_or_app. now left.
  - intros i Hi. apply (H i Hi).
  - apply (H (last items "")).
    rewrite (app_removelast_last "" Hne) at 2. apply in_or_app. right.
    now left.
Qed.

(** X10: the parser undoes the aggregator: when the names of the selected
    presets are plain and neither sub-ingredients nor additional tokens hold
    a parenthesis, the canonical expression splits at top level into exactly
    the items it was joined from. *)
Theorem splitTopLevel_of_canonical (app : Form)
    (Hplain : plainSelection app) :
  splitTopLevel (buildFormattedLabelText app)
  = map presetExpressionItem (selectedPresets app)
    ++ additionalTokens (additionalIngredients app).
Proof.
  rewrite buildFormattedLabelText_spec.
  apply splitTopLevel_of_whole_items, expressionItems_whole, Hplain.
Qed.

Lemma sampleForm_plain : plainSelection sampleForm.
Proof.
  split.
  - intros p [<-|[<-|[]]]; split;
      try (repeat split; discriminate);
      cbn; intros sub H; repeat destruct H as [<-|H]; try reflexivity;
      contradiction.
  - cbn. intros t H. repeat destruct H as [<-|H]; try reflexivity.
    contradiction.
Defined.

Lemma splitTopLevel_of_canonical_witness :
  splitTopLevel (buildFormattedLabelText sampleForm)
  = ["Spices (Cinnamon, Nutmeg)"; "Eggs"; "Vanilla"; "Salt"].
Proof.
  apply (splitTopLevel_of_canonical sampleForm sampleForm_plain).
Defined.

Lemma format_as_map (text : string) :
  formatIngredientsWithBoldPresetNames text
  = Js.join ", " (map formatPart (splitTopLevel text)).
Proof.
  unfold formatIngredientsWithBoldPresetNames. destruct text; reflexivity.
Qed.

Lemma formatPart_preset (preset : Preset) :
  plainName (preset_name preset) ->
  formatPart (presetExpressionItem preset) = presetMarkup preset.
Proof.
  intros (Ht & Hne & Hc & Hp). unfold presetExpressionItem, presetMarkup.
  unfold parenFree in Hp. apply andb_true_iff in Hp as [Hp _].
  apply negb_true_iff in Hp.
  destruct (preset_ingredients preset) as [|s0 subs] eqn:E.
  - apply formatPart_whole. now left.
  - rewrite <- E. set (J := Js.join ", " (preset_ingredients preset)).
    set (n := preset_name preset) in *.
    replace (n ++ " (" ++ J ++ ")")%string
      with ((n ++ " ") ++ String "(" (J ++ ")"))%string
      by (now rewrite str_app_assoc).
    rewrite formatPart_named_group.
    + assert (Js.trim (n ++ " ") = n) as ->; [|reflexivity].
      destruct n as [|c r] eqn:En; [contradiction|].
      pose proof (trimmed_first c r Ht) as Hw.
      unfold Js.trim. cbn [String.append Js.trimStart]. rewrite Hw.
      change (String c (r ++ " ")) with (String c r ++ " ")%string.
      rewrite trimEnd_app_space. now apply trimmed_end.
    + rewrite occurs_app, Hp. reflexivity.
    + destruct n; [contradiction | discriminate].
Qed.

(** X11: on the canonical expression of such a selection the emphasis
    falls on the preset names and on the additional tokens, and the
    sub-ingredient groups follow their names unchanged. *)
Theorem bold_names_of_canonical (app : Form)
    (Hplain : plainSelection app) :
  formatIngredientsWithBoldPresetNames (buildFormattedLabelText app)
  = Js.join ", "
      (map presetMarkup (selectedPresets app)
       ++ map tokenMarkup (additionalTokens (additionalIngredients app))).
Proof.
  rewrite format_as_map.
  rewrite buildFormattedLabelText_spec.
  rewrite (splitTopLevel_of_whole_items _ (expressionItems_whole app Hplain)).
  rewrite map_app, map_map. f_equal. f_equal.
  - apply map_ext_in. intros p Hp. apply formatPart_preset.
    now apply (proj1 Hplain p Hp).
  - apply map_ext_in. intros t Ht. apply formatPart_whole. left.
    pose proof (proj2 Hplain t Ht) as H. unfold parenFree in H.
    apply andb_true_iff in H as [H _]. now apply negb_true_iff in H.
Qed.

Lemma bold_names_of_canonical_witness :
  formatIngredientsWithBoldPresetNames (buildFormattedLabelText sampleForm)
  = ("<strong>Spices</strong> (Cinnamon, Nutmeg), <strong>Eggs</strong>, "
     ++ "<strong>Vanilla</strong>, <strong>Salt</strong>")%string.
Proof.
  apply (bold_names_of_canonical sampleForm sampleForm_plain).
Defined.

(** ** Validation and submission of the label form *)

Lemma join_not_empty (sep : string) (items : list string) :
  items <> [] -> (forall x, In x items -> x <> "") ->
  Js.join sep items <> "".
Proof.
  destruct items as [|x [|y rest]]; intros Hne H; [contradiction | |].
  - apply H. now left.
  - rewrite join_cons2. pose proof (H x (or_introl eq_refl)) as Hx.
    destruct x; [contradiction | discriminate].
Qed.

Lemma selectedPresets_loaded (app : Form) (preset : Preset) :
  In preset (selectedPresets app) -> In preset (presets app).
Proof.
  unfold selectedPresets. intros H. apply in_flat_map in H as (id & _ & H).
  destruct (getPresetById app id) as [q|] eqn:E; [|contradiction].
  destruct H as [<-|[]]. unfold getPresetById in E.
  now apply find_some in E as [E _].
Qed.

Lemma presetExpressionItem_not_empty (preset : Preset) :
  preset_name preset <> "" -> presetExpressionItem preset <> "".
Proof.
  intros H. unfold presetExpressionItem.
  destruct (preset_ingredients preset); [exact H|].
  destruct (preset_name preset); [contradiction | discriminate].
Qed.

Lemma canonical_not_empty (app : Form) :
  (forall preset, In preset (presets app) -> preset_name preset <> "") ->
  collectAllIngredients app <> [] ->
  buildFormattedLabelText app <> "".
Proof.
  intros Hn Hc. rewrite buildFormattedLabelText_spec. apply join_not_empty.
  - intros H. apply app_eq_nil in H as [H1 H2]. apply Hc.
    apply collectAllIngredients_empty_iff. split; [|exact H2].
    now apply map_eq_nil in H1.
  - intros x Hx. apply in_app_or in Hx as [Hx|Hx].
    + apply in_map_iff in Hx as (p & <- & Hp).
      apply presetExpressionItem_not_empty, Hn.
      now apply selectedPresets_loaded.
    + now apply (additionalTokens_clean _ _ Hx).
Qed.

Lemma validateForm_valid (form : LabelForm) :
  validateForm form = Valid ->
  (2 <= String.length (Js.trim (labelName form)))%nat
  /\ (creationMode form = "manual" ->
      (2 <= String.length (Js.trim (labelText form)))%nat)
  /\ (creationMode form = "preset" ->
      collectAllIngredients (ingredientForm form) <> []).
Proof.
  unfold validateForm.
  destruct (String.eqb (Js.trim (labelName form)) ""); [discriminate|].
  destruct (Nat.ltb_spec (String.length (Js.trim (labelName form))) 2)
    as [|Hn]; [discriminate|].
  intros H. split; [exact Hn|]. split; intros Hm; rewrite Hm in H;
    cbn [String.eqb Ascii.eqb Bool.eqb] in H.
  - destruct (String.eqb (Js.trim (labelText form)) ""); [discriminate|].
    destruct (Nat.ltb_spec (String.length (Js.trim (labelText form))) 2)
      as [|Ht]; [discriminate | exact Ht].
  - destruct (collectAllIngredients (ingredientForm form));
      [discriminate H | discriminate].
Qed.

(** X12: whatever label [handleSubmit] sends in manual or preset mode,
    creating or editing, has a name of at least two characters and, as long
    as no loaded preset has an empty name, an ingredient text that is not
    empty. *)
Theorem sent_label_has_text {F : Type} (fdaData : F) (form : LabelForm)
    (editing : bool) (data : LabelData F)
    (Hnames : forall preset, In preset (presets (ingredientForm form)) ->
                preset_name preset <> "")
    (Hmode : creationMode form = "manual" \/ creationMode form = "preset")
    (Hsent : handleSubmit fdaData form editing = Some data) :
  sent_text data <> "" /\ (2 <= String.length (sent_name data))%nat.
Proof.
  unfold handleSubmit in Hsent.
  destruct (validateForm form) eqn:V; [|discriminate].
  destruct (validateForm_valid form V) as (Hname & Hmanual & Hpreset).
  assert (forall t, (2 <= String.length t)%nat -> t <> "") as Hlen
    by (intros [|] H; [simpl in H; lia | discriminate]).
  destruct Hmode as [Hm|Hm]; rewrite Hm in Hsent;
    cbn [String.eqb Ascii.eqb Bool.eqb] in Hsent.
  - assert (data = manualLabelData fdaData form) as ->
      by (destruct editing; now injection Hsent as <-).
    split; [apply Hlen, Hmanual, Hm | exact Hname].
  - assert (data = presetLabelData fdaData form) as ->.
    { destruct editing; [now injection Hsent as <-|].
      destruct (0 <? List.length (collectAllIngredients (ingredientForm form)))%nat;
        [now injection Hsent as <- | discriminate]. }
    split; [|exact Hname]. apply canonical_not_empty; [exact Hnames|].
    now apply Hpreset.
Qed.

Lemma sent_label_has_text_witness :
  "Spices (Cinnamon, Nutmeg), Eggs, Vanilla, Salt" <> ""
  /\ (2 <= String.length "Cookies")%nat.
Proof.
  apply (sent_label_has_text tt (mkLabelForm "preset" " Cookies " "" sampleForm)
           false
           (mkLabelData "Cookies"
              "Spices (Cinnamon, Nutmeg), Eggs, Vanilla, Salt" "preset"
              ["p1"; "p2"] "Vanilla, Salt"
              ["Cinnamon"; "Nutmeg"; "Eggs"; "Vanilla"; "Salt"] tt)).
  - intros p [<-|[<-|[]]]; discriminate.
  - right. reflexivity.
  - reflexivity.
Defined.

(** X13: in manual or preset mode a label is sent exactly when the form is
    valid; in particular the second emptiness test of the creating branch
    never stops a valid form. *)
Theorem sent_iff_valid {F : Type} (fdaData : F) (form : LabelForm)
    (editing : bool)
    (Hmode : creationMode form = "manual" \/ creationMode form = "preset") :
  handleSubmit fdaData form editing <> None <-> validateForm form = Valid.
Proof.
  unfold handleSubmit. destruct (validateForm form) eqn:V.
  - split; [reflexivity|]. intros _.
    destruct (validateForm_valid form V) as (_ & _ & Hpreset).
    destruct Hmode as [Hm|Hm]; rewrite Hm;
      cbn [String.eqb Ascii.eqb Bool.eqb].
    + destruct editing; discriminate.
    + destruct editing; [discriminate|].
      specialize (Hpreset Hm).
      destruct (collectAllIngredients (ingredientForm form));
        [contradiction | discriminate].
  - split; [intros H; now contradiction H | discriminate].
Qed.

Lemma sent_iff_valid_witness :
  handleSubmit tt (mkLabelForm "preset" " Cookies " "" sampleForm) false
  <> None
  <-> validateForm (mkLabelForm "preset" " Cookies " "" sampleForm) = Valid.
Proof.
  apply (sent_iff_valid tt (mkLabelForm "preset" " Cookies " "" sampleForm)
           false).
  right. reflexivity.
Defined.

(** ** Rendering, further *)

Lemma plainSection_not_empty (l : Label) (s : LabelSection) :
  backingPresent l s = true -> plainSection l s <> "".
Proof.
  destruct s; cbn [backingPresent plainSection]; intros H.
  - now destruct (label_name l).
  - discriminate.
  - unfold plainAllergenLine. discriminate.
  - apply plainAddressParts_truthy in H.
    now destruct (plainAddressParts l).
  - unfold plainNetQuantityLine. discriminate.
  - discriminate.
Qed.

(** X14: the plain text is empty exactly when the label has data for none
    of the six sections. *)
Theorem plain_text_empty_iff (l : Label) :
  buildFullLabelText l = ""
  <-> forall s, backingPresent l s = false.
Proof.
  rewrite buildFullLabelText_sections. split.
  - intros H s. destruct (backingPresent l s) eqn:E; [|reflexivity].
    exfalso. revert H. apply join_not_empty.
    + assert (In s (filter (backingPresent l) sectionOrder)) as Hin
        by (apply filter_In; split; [destruct s; simpl; auto 7 | exact E]).
      intros Hnil. apply map_eq_nil in Hnil. now rewrite Hnil in Hin.
    + intros x Hx. apply in_map_iff in Hx as (s' & <- & Hs').
      apply filter_In in Hs' as [_ Hs']. now apply plainSection_not_empty.
  - intros H. cbn [sectionOrder filter]. now rewrite !H.
Qed.

Lemma strip_orElse (text : string) :
  stripBracketsFromIngredients (Js.orElse text (Js.orElse "" ""))
  = stripBracketsFromIngredients text.
Proof. destruct text; reflexivity. Qed.

(** X15: a label whose text is replaced by its stored, normalized form
    renders to the same three texts (for a label without the
    [ingredientsText] fallback). *)
Theorem render_of_stored_text (l : Label)
    (Hnone : label_ingredientsText l = "") :
  render (withText (storageText (render l)) l) = render l.
Proof.
  unfold render. cbn [storageText].
  set (t := stripBracketsFromIngredients (label_text l)).
  assert (stripBracketsFromIngredients t = t) as Ht
    by apply stripBrackets_idempotent.
  f_equal.
  - exact Ht.
  - unfold buildFormattedLabelHtml, ingredientsHtml, richCleanIngredients.
    cbn [withText label_text label_ingredientsText]. rewrite Hnone.
    rewrite !strip_orElse, Ht. reflexivity.
  - unfold buildFullLabelText, plainLines, plainCleanIngredients.
    cbn [withText label_text]. rewrite Ht. reflexivity.
Qed.

Lemma render_of_stored_text_witness :
  render (withText (storageText (render sampleLabel)) sampleLabel)
  = render sampleLabel.
Proof. apply (render_of_stored_text sampleLabel). reflexivity. Defined.

(** ** The preset checkboxes *)

Lemma includes_In (ids : list string) (id : string) :
  Panel.includes ids id = true <-> In id ids.
Proof.
  unfold Panel.includes. rewrite existsb_exists. split.
  - intros (x & Hx & E). apply String.eqb_eq in E. now subst.
  - intros H. exists id. split; [exact H | apply String.eqb_refl].
Qed.

Lemma getSelected_of_map {A : Type} (val : A -> string) (sel : A -> bool)
    (xs : list A) :
  Panel.getSelectedPresets
    (map (fun x => Panel.mkCheckbox (val x) (sel x)) xs)
  = map val (filter sel xs).
Proof.
  unfold Panel.getSelectedPresets.
  induction xs as [|x rest IH]; [reflexivity|]. cbn [map filter Panel.checked].
  destruct (sel x); cbn [map Panel.value]; now rewrite IH.
Qed.

(** X16: after a selection is restored, the selected identifiers are the
    values of the boxes that occur in the given list, in the order of the
    boxes: the order of the list is not kept, and an identifier without a
    box is dropped. *)
Theorem getSelected_after_setSelected (ids : list string)
    (boxes : list Panel.Checkbox) :
  Panel.getSelectedPresets (Panel.setSelectedPresets ids boxes)
  = filter (Panel.includes ids) (map Panel.value boxes).
Proof.
  unfold Panel.setSelectedPresets.
  rewrite (getSelected_of_map Panel.value
             (fun cb => Panel.includes ids (Panel.value cb))).
  induction boxes as [|cb rest IH]; [reflexivity|]. cbn [map filter].
  destruct (Panel.includes ids (Panel.value cb)); cbn [map]; now rewrite IH.
Qed.

(** X17: rendering the panel again never selects a preset that was not
    selected, and keeps selected exactly the presets that are displayed:
    the selection of a preset hidden by a search is lost. *)
Theorem selection_after_render (panel : Panel.t) (id : string) :
  In id (Panel.getSelectedPresets
           (Panel.checkboxes (Panel.renderPresetCheckboxes panel)))
  <-> In id (Panel.getSelectedPresets (Panel.checkboxes panel))
      /\ In id (map preset_id (Panel.presetsToDisplay panel)).
Proof.
  unfold Panel.renderPresetCheckboxes. cbn [Panel.checkboxes].
  rewrite (getSelected_of_map preset_id
             (fun preset =>
                Panel.includes
                  (Panel.getSelectedPresets (Panel.checkboxes panel))
                  (preset_id preset))).
  rewrite !in_map_iff. split.
  - intros (p & <- & Hp). apply filter_In in Hp as [Hp Hsel].
    apply includes_In in Hsel. split; [exact Hsel | now exists p].
  - intros [Hsel (p & <- & Hp)]. exists p. split; [reflexivity|].
    apply filter_In. split; [exact Hp | now apply includes_In].
Qed.

(** X18: rendering the panel twice gives the same boxes as rendering it
    once. *)
Theorem render_checkboxes_idempotent (panel : Panel.t) :
  Panel.renderPresetCheckboxes (Panel.renderPresetCheckboxes panel)
  = Panel.renderPresetCheckboxes panel.
Proof.
  remember (Panel.renderPresetCheckboxes panel) as R eqn:ER.
  assert (forall p, In p (Panel.presetsToDisplay panel) ->
            Panel.mkCheckbox (preset_id p)
              (Panel.includes (Panel.getSelectedPresets (Panel.checkboxes R))
                              (preset_id p))
            = Panel.mkCheckbox (preset_id p)
                (Panel.includes
                   (Panel.getSelectedPresets (Panel.checkboxes panel))
                   (preset_id p))) as H.
  { intros p Hp. f_equal. apply eq_true_iff_eq.
    rewrite !includes_In, ER, selection_after_render.
    split; [now intros [H _]|]. intros H. split; [exact H|].
    now apply in_map. }
  unfold Panel.renderPresetCheckboxes.
  assert (Panel.presets R = Panel.presets panel) as -> by now subst.
  assert (Panel.ingredientSelectSearchResults R
          = Panel.ingredientSelectSearchResults panel) as -> by now subst.
  assert (Panel.presetsToDisplay R = Panel.presetsToDisplay panel) as ->
    by now subst.
  rewrite (map_ext_in _ _ _ H). now subst.
Qed.

(** ** Identifiers served and resolved by the server *)

Lemma hexValue_hexDigit (v : nat) :
  (v < 16)%nat ->
  ObjectId.hexValue (ObjectId.hexDigit v) = Some v
  /\ isLowerHexDigit (ObjectId.hexDigit v) = true.
Proof.
  intros H. do 16 (destruct v as [|v]; [split; reflexivity|]). lia.
Qed.

Lemma byte_split (b : nat) :
  (b < 256)%nat ->
  (b / 16 < 16 /\ b mod 16 < 16 /\ 16 * (b / 16) + b mod 16 = b)%nat.
Proof.
  intros H. split; [apply Nat.Div0.div_lt_upper_bound; lia|].
  split; [apply Nat.mod_upper_bound; lia|].
  symmetry. apply Nat.div_mod_eq.
Qed.

(** The hexadecimal form of bytes decodes to the same bytes, and is made of
    lowercase hexadecimal digits. *)
Lemma bytesFromHex_hexOfBytes (bs : list nat) :
  Forall (fun b => (b < 256)%nat) bs ->
  ObjectId.bytesFromHex (ObjectId.hexOfBytes bs) = Some bs
  /\ ObjectId.allChars isLowerHexDigit (ObjectId.hexOfBytes bs) = true.
Proof.
  induction 1 as [|b rest Hb _ [IH1 IH2]]; [now split|].
  destruct (byte_split b Hb) as (Hh & Hl & Hsum).
  destruct (hexValue_hexDigit _ Hh) as [Vh Lh].
  destruct (hexValue_hexDigit _ Hl) as [Vl Ll].
  cbn [ObjectId.hexOfBytes ObjectId.bytesFromHex ObjectId.allChars].
  rewrite Vh, Vl, IH1, Hsum, Lh, Ll, IH2. now split.
Qed.

Lemma lowerHex_is_hex (s : string) :
  ObjectId.allChars isLowerHexDigit s = true ->
  ObjectId.allChars ObjectId.isHexDigit s = true.
Proof.
  rewrite (allChars_ext _ _ s isLowerHexDigit_spec), allChars_and.
  intros H. now apply andb_true_iff in H as [H _].
Qed.

(** X19: the written form of a store-made identifier resolves to the
    primary-key lookup of that very identifier. *)
Theorem getPresetQuery_of_toString (oid : ObjectId.t)
    (Hwf : Server.wellFormed oid) :
  getPresetQuery (ObjectId.toString oid) = PrimaryKey oid.
Proof.
  destruct oid as [bs]. destruct Hwf as [Hlen Hbytes]. cbn in Hlen, Hbytes.
  destruct (bytesFromHex_hexOfBytes bs Hbytes) as [Hdec Hlow].
  unfold getPresetQuery, getPresetQuery_try, ObjectId.isValid,
    ObjectId.construct, ObjectId.toString.
  cbn [ObjectId.bytes]. rewrite hexOfBytes_length, Hlen.
  rewrite (lowerHex_is_hex _ Hlow), Hdec. cbn [Nat.eqb Nat.mul Nat.add andb].
  cbn [ObjectId.bytes]. now rewrite String.eqb_refl.
Qed.

Lemma getPresetQuery_of_toString_witness :
  getPresetQuery "0123456789abcdef01234567"
  = PrimaryKey
      (ObjectId.mk [1; 35; 69; 103; 137; 171; 205; 239; 1; 35; 69; 103]).
Proof.
  apply (getPresetQuery_of_toString
           (ObjectId.mk [1; 35; 69; 103; 137; 171; 205; 239; 1; 35; 69; 103])).
  split; [reflexivity|]. repeat constructor; simpl; lia.
Defined.

Lemma bytes_eqb_eq (a b : list nat) : Server.bytes_eqb a b = true <-> a = b.
Proof.
  revert b. induction a as [|x a IH]; intros [|y b]; cbn;
    try (split; (reflexivity || discriminate)).
  rewrite andb_true_iff, Nat.eqb_eq, IH. split.
  - now intros [-> ->].
  - intros H. injection H as -> ->. now split.
Qed.

(** X20: the identifier a document is served under leads back to it: for a
    document with a store-made [_id] and either no [id] property of its own
    or one that is a string not in the store's format, the query resolved
    from the served identifier matches the document. *)
Theorem served_id_resolves (doc : Server.Document)
    (Hwf : Server.wellFormed (Server._id doc))
    (Hown : Server.rest doc "id" = None
            \/ exists s, Server.rest doc "id" = Some (Server.VString s)
                         /\ isStoreGeneratedId s = false) :
  exists id, Server.servedId doc = Some id
             /\ Server.matchesQuery (getPresetQuery id) doc = true.
Proof.
  unfold Server.servedId, Server.stripMongoId, Server.spread.
  destruct Hown as [Hnone|(s & Hs & Hlegacy)].
  - rewrite Hnone. cbn. exists (ObjectId.toString (Server._id doc)).
    split; [reflexivity|]. rewrite (getPresetQuery_of_toString _ Hwf).
    cbn. now apply bytes_eqb_eq.
  - rewrite Hs. exists s. split; [reflexivity|].
    rewrite (getPresetQuery_legacy s Hlegacy). cbn. rewrite Hs.
    apply String.eqb_refl.
Qed.

Lemma served_id_resolves_witness :
  exists id,
    Server.servedId
      (Server.mkDocument
         (ObjectId.mk [1; 35; 69; 103; 137; 171; 205; 239; 1; 35; 69; 103])
         (Server.set "id" (Server.VString "default-1") Server.empty))
    = Some id
    /\ Server.matchesQuery (getPresetQuery id)
         (Server.mkDocument
            (ObjectId.mk [1; 35; 69; 103; 137; 171; 205; 239; 1; 35; 69; 103])
            (Server.set "id" (Server.VString "default-1") Server.empty))
       = true.
Proof.
  apply served_id_resolves.
  - split; [reflexivity|]. repeat constructor; simpl; lia.
  - right. exists "default-1". split; reflexivity.
Defined.

Lemma deleteOne_spec (query : LookupKey) (collection : list Server.Document) :
  (Server.deleteOne query collection = (0%nat, collection)
   /\ forall doc, In doc collection -> Server.matchesQuery query doc = false)
  \/ (exists before doc after,
        collection = before ++ doc :: after
        /\ Server.deleteOne query collection = (1%nat, before ++ after)
        /\ Server.matchesQuery query doc = true
        /\ forall x, In x before -> Server.matchesQuery query x = false).
Proof.
  induction collection as [|d others IH]; [left; now split|].
  cbn [Server.deleteOne]. destruct (Server.matchesQuery query d) eqn:E.
  - right. exists [], d, others. repeat split; [exact E | contradiction].
  - destruct IH as [[H1 H2]|(before & doc & after & H1 & H2 & H3 & H4)].
    + left. rewrite H1. split; [reflexivity|].
      intros x [<-|Hx]; [exact E | now apply H2].
    + right. exists (d :: before), doc, after. rewrite H2, H1.
      repeat split; [exact H3|]. intros x [<-|Hx]; [exact E | now apply H4].
Qed.

(** X22: a deletion removes the first document that matches the resolved
    identifier and nothing else; when no document matches it answers not
    found and leaves the collection as it is. *)
Theorem delete_removes_first_match (id : string)
    (collection : list Server.Document) :
  (Server.deletePreset id collection = (Server.NotFound, collection)
   /\ forall doc, In doc collection ->
        Server.matchesQuery (getPresetQuery id) doc = false)
  \/ (exists before doc after,
        collection = before ++ doc :: after
        /\ Server.deletePreset id collection
           = (Server.Success, before ++ after)
        /\ Server.matchesQuery (getPresetQuery id) doc = true
        /\ forall x, In x before ->
             Server.matchesQuery (getPresetQuery id) x = false).
Proof.
  unfold Server.deletePreset.
  destruct (deleteOne_spec (getPresetQuery id) collection)
    as [[H1 H2]|(before & doc & after & H1 & H2 & H3 & H4)].
  - left. rewrite H1. now split.
  - right. exists before, doc, after. rewrite H2. now repeat split.
Qed.

Lemma deleteOne_last (query : LookupKey) (collection : list Server.Document)
    (doc : Server.Document) :
  (forall x, In x collection -> Server.matchesQuery query x = false) ->
  Server.matchesQuery query doc = true ->
  Server.deleteOne query (collection ++ [doc]) = (1%nat, collection).
Proof.
  intros Hno Hyes. induction collection as [|d others IH].
  - cbn. now rewrite Hyes.
  - cbn [app Server.deleteOne]. rewrite (Hno d (or_introl eq_refl)).
    rewrite IH by (intros x Hx; apply Hno; now right). reflexivity.
Qed.

(** X23: a preset that has just been created is served under the written
    form of the identifier the store gave it, and deleting it under that
    identifier gives back the collection as it was, provided the identifier
    is new to the collection. *)
Theorem post_then_delete (input : Server.Object) (insertedId : ObjectId.t)
    (now : string) (collection : list Server.Document)
    (Hwf : Server.wellFormed insertedId)
    (Hnew : forall doc, In doc collection -> Server._id doc <> insertedId) :
  exists body,
    fst (Server.postPreset input insertedId now collection)
    = Server.Created body
    /\ body "id" = Some (Server.VString (ObjectId.toString insertedId))
    /\ Server.deletePreset (ObjectId.toString insertedId)
         (snd (Server.postPreset input insertedId now collection))
       = (Server.Success, collection).
Proof.
  unfold Server.postPreset. cbn [fst snd].
  eexists. split; [reflexivity|]. split; [reflexivity|].
  unfold Server.deletePreset. rewrite (getPresetQuery_of_toString _ Hwf).
  rewrite deleteOne_last; [reflexivity | |].
  - intros x Hx. cbn. destruct (Server.bytes_eqb _ _) eqn:E; [|reflexivity].
    exfalso. apply bytes_eqb_eq in E. apply (Hnew x Hx).
    destruct (Server._id x), insertedId. cbn in E. now subst.
  - cbn. now apply bytes_eqb_eq.
Qed.

Lemma post_then_delete_witness :
  exists body,
    fst (Server.postPreset Server.empty
           (ObjectId.mk [1; 35; 69; 103; 137; 171; 205; 239; 1; 35; 69; 103])
           "2024-01-01T00:00:00.000Z" [])
    = Server.Created body
    /\ body "id" = Some (Server.VString "0123456789abcdef01234567")
    /\ Server.deletePreset "0123456789abcdef01234567"
         (snd (Server.postPreset Server.empty
                 (ObjectId.mk [1; 35; 69; 103; 137; 171; 205; 239; 1; 35; 69; 103])
                 "2024-01-01T00:00:00.000Z" []))
       = (Server.Success, []).
Proof.
  apply (post_then_delete Server.empty
           (ObjectId.mk [1; 35; 69; 103; 137; 171; 205; 239; 1; 35; 69; 103])
           "2024-01-01T00:00:00.000Z" []).
  - split; [reflexivity|]. repeat constructor; simpl; lia.
  - intros doc [].
Defined.

(** ** The loaded presets *)

Lemma findIndex_spec {A : Type} (p : A -> bool) (xs : list A) :
  (findIndex p xs = (-1)%Z /\ forall x, In x xs -> p x = false)
  \/ (exists before x after,
        xs = before ++ x :: after
        /\ findIndex p xs = Z.of_nat (List.length before)
        /\ p x = true
        /\ forall y, In y before -> p y = false).
Proof.
  induction xs as [|a rest IH]; [left; now split|].
  cbn [findIndex]. destruct (p a) eqn:E.
  - right. exists [], a, rest. repeat split; [exact E | contradiction].
  - destruct IH as [[H1 H2]|(before & x & after & H1 & H2 & H3 & H4)].
    + left. rewrite H1. split; [reflexivity|].
      intros x [<-|Hx]; [exact E | now apply H2].
    + right. exists (a :: before), x, after. rewrite H2, H1.
      repeat split.
      * destruct (Z.ltb_spec (Z.of_nat (List.length before)) 0);
          cbn [List.length]; lia.
      * exact H3.
      * intros y [<-|Hy]; [exact E | now apply H4].
Qed.

Lemma firstn_skipn_at {A : Type} (before after : list A) (x : A) :
  firstn (List.length before) (before ++ x :: after) = before
  /\ skipn (S (List.length before)) (before ++ x :: after) = after.
Proof.
  induction before as [|b r [IH1 IH2]]; [now split|].
  cbn [List.length app firstn skipn]. split; [now rewrite IH1 | exact IH2].
Qed.

Lemma find_app_none {A : Type} (p : A -> bool) (before after : list A) :
  (forall y, In y before -> p y = false) ->
  find p (before ++ after) = find p after.
Proof.
  intros H. induction before as [|b r IH]; [reflexivity|].
  cbn [app find]. rewrite (H b (or_introl eq_refl)).
  apply IH. intros y Hy. apply H. now right.
Qed.

Lemma find_app_mid {A : Type} (p : A -> bool) (before after : list A) (x : A) :
  p x = false ->
  find p (before ++ x :: after) = find p (before ++ after).
Proof.
  intros H. induction before as [|b r IH]; cbn [app find];
    [now rewrite H | now rewrite IH].
Qed.

Lemma deletePreset_cases (id : string) (ps : list Preset) :
  (deletePreset true id ps = ps
   /\ forall x, In x ps -> String.eqb (preset_id x) id = false)
  \/ (exists before x after,
        ps = before ++ x :: after
        /\ deletePreset true id ps = before ++ after
        /\ preset_id x = id
        /\ forall y, In y before -> String.eqb (preset_id y) id = false).
Proof.
  unfold deletePreset. cbn [negb].
  destruct (findIndex_spec (fun preset => String.eqb (preset_id preset) id) ps)
    as [[H1 H2]|(before & x & after & H1 & H2 & H3 & H4)].
  - left. rewrite H1. now split.
  - right. exists before, x, after. rewrite H2.
    destruct (Z.eqb_spec (Z.of_nat (List.length before)) (-1)); [lia|].
    rewrite Nat2Z.id. unfold spliceOne. rewrite H1.
    destruct (firstn_skipn_at before after x) as [-> ->].
    apply String.eqb_eq in H3. now repeat split.
Qed.

(** X24: after a preset is deleted, looking up any other identifier gives
    what it gave before, and looking up the deleted identifier gives
    nothing when the identifiers of the loaded presets are distinct. *)
Theorem lookup_after_delete (app : Form) (id other : string)
    (Hdistinct : NoDup (map preset_id (presets app))) :
  getPresetById (withPresets (deletePreset true id (presets app)) app) id
  = None
  /\ (other <> id ->
      getPresetById (withPresets (deletePreset true id (presets app)) app)
                    other
      = getPresetById app other).
Proof.
  unfold getPresetById, withPresets. cbn [presets].
  destruct (deletePreset_cases id (presets app))
    as [[H1 H2]|(before & x & after & H1 & H2 & H3 & H4)].
  - rewrite H1. split; [|reflexivity].
    destruct (find _ (presets app)) as [q|] eqn:E; [|reflexivity].
    apply find_some in E as [Hq E]. now rewrite (H2 q Hq) in E.
  - rewrite H2, H1. split.
    + rewrite (find_app_none _ before after H4).
      destruct (find _ after) as [q|] eqn:E; [|reflexivity].
      apply find_some in E as [Hq E]. apply String.eqb_eq in E.
      exfalso. rewrite H1, map_app in Hdistinct. cbn [map] in Hdistinct.
      apply NoDup_remove_2 in Hdistinct. apply Hdistinct.
      apply in_or_app. right. rewrite H3, <- E. now apply in_map.
    + intros Hne. symmetry. apply find_app_mid.
      apply String.eqb_neq. rewrite H3. congruence.
Qed.

Lemma lookup_after_delete_witness :
  getPresetById
    (withPresets (deletePreset true "p1" (presets sampleForm)) sampleForm) "p1"
  = None
  /\ ("p2" <> "p1" ->
      getPresetById
        (withPresets (deletePreset true "p1" (presets sampleForm)) sampleForm)
        "p2"
      = getPresetById sampleForm "p2").
Proof.
  apply (lookup_after_delete sampleForm "p1" "p2").
  repeat constructor; simpl; intuition discriminate.
Defined.

(** X25: after a preset is updated with an answer that carries the same
    identifier, looking that identifier up gives the answer if a preset was
    loaded under it, and looking up any other identifier gives what it gave
    before. *)
Theorem lookup_after_update (app : Form) (id other : string)
    (updated : Preset)
    (Hsame : preset_id updated = id) :
  (getPresetById app id <> None ->
   getPresetById (withPresets (updatePreset (Some updated) id (presets app)) app)
                 id
   = Some updated)
  /\ (other <> id ->
      getPresetById
        (withPresets (updatePreset (Some updated) id (presets app)) app) other
      = getPresetById app other).
Proof.
  unfold getPresetById, withPresets, updatePreset. cbn [presets].
  destruct (findIndex_spec (fun preset => String.eqb (preset_id preset) id)
                           (presets app))
    as [[H1 H2]|(before & x & after & H1 & H2 & H3 & H4)].
  - rewrite H1. cbn. split; [|reflexivity]. intros H. exfalso. apply H.
    destruct (find _ (presets app)) as [q|] eqn:E; [|reflexivity].
    apply find_some in E as [Hq E]. now rewrite (H2 q Hq) in E.
  - rewrite H2.
    destruct (Z.eqb_spec (Z.of_nat (List.length before)) (-1)); [lia|].
    rewrite Nat2Z.id. unfold assignAt. rewrite H1.
    destruct (firstn_skipn_at before after x) as [-> ->].
    apply String.eqb_eq in H3. split.
    + intros _. rewrite (find_app_none _ before _ H4). cbn [find].
      now rewrite Hsame, String.eqb_refl.
    + intros Hne.
      assert (forall q, preset_id q = id ->
                String.eqb (preset_id q) other = false) as Hq
        by (intros q Hq; apply String.eqb_neq; congruence).
      rewrite !find_app_mid by (apply Hq; assumption). reflexivity.
Qed.

Lemma lookup_after_update_witness :
  (getPresetById sampleForm "p2" <> None ->
   getPresetById
     (withPresets
        (updatePreset (Some (mkPreset "p2" "Egg" None [])) "p2"
                      (presets sampleForm)) sampleForm) "p2"
   = Some (mkPreset "p2" "Egg" None []))
  /\ ("p1" <> "p2" ->
      getPresetById
        (withPresets
           (updatePreset (Some (mkPreset "p2" "Egg" None [])) "p2"
                         (presets sampleForm)) sampleForm) "p1"
      = getPresetById sampleForm "p1").
Proof.
  apply (lookup_after_update sampleForm "p2" "p1" (mkPreset "p2" "Egg" None [])).
  reflexivity.
Defined.

Lemma selectedPresets_ext (app app' : Form) :
  checkedPresetIds app' = checkedPresetIds app ->
  (forall id, In id (checkedPresetIds app) ->
     getPresetById app' id = getPresetById app id) ->
  selectedPresets app' = selectedPresets app.
Proof.
  unfold selectedPresets, getSelectedPresets. intros -> H.
  induction (checkedPresetIds app) as [|id ids IH]; [reflexivity|].
  cbn [flat_map]. rewrite (H id (or_introl eq_refl)). f_equal.
  apply IH. intros i Hi. apply H. now right.
Qed.

(** X26: deleting a preset that is not checked changes nothing in the
    label being composed: the flattened list and the canonical expression
    stay the same. *)
Theorem delete_unchecked_preset (app : Form) (id : string)
    (Hdistinct : NoDup (map preset_id (presets app)))
    (Hunchecked : ~ In id (getSelectedPresets app)) :
  let app' := withPresets (deletePreset true id (presets app)) app in
  collectAllIngredients app' = collectAllIngredients app
  /\ buildFormattedLabelText app' = buildFormattedLabelText app.
Proof.
  intros app'.
  assert (selectedPresets app' = selectedPresets app) as Hsel.
  { apply selectedPresets_ext; [reflexivity|]. intros i Hi.
    apply (lookup_after_delete app id i Hdistinct). intros ->.
    now apply Hunchecked. }
  rewrite !collectAllIngredients_spec, !buildFormattedLabelText_spec, Hsel.
  split; reflexivity.
Qed.

Lemma delete_unchecked_preset_witness :
  let app := mkForm (presets sampleForm) ["p1"] "Salt" in
  let app' := withPresets (deletePreset true "p2" (presets app)) app in
  collectAllIngredients app' = collectAllIngredients app
  /\ buildFormattedLabelText app' = buildFormattedLabelText app.
Proof.
  intros app.
  apply (delete_unchecked_preset app "p2").
  - repeat constructor; simpl; intuition discriminate.
  - simpl. intuition discriminate.
Defined.

(** ** The plain text, section by section *)

(** A label with its ingredient expression in [ingredientsText] only has an
    ingredients section in the rich markup and none in the plain text. *)
Lemma fallback_text_is_rich_only :
  richSection fallbackLabel IngredientsLine <> ""
  /\ isSubstring "Ingredients:" (buildFormattedLabelHtml fallbackLabel)
  /\ buildFullLabelText fallbackLabel = "".
Proof.
  split; [|split].
  - vm_compute. discriminate.
  - apply includes_spec. reflexivity.
  - reflexivity.
Qed.

















(** ** The ingredient check of [validateForm] *)

Lemma getPresetById_none_iff (app : Form) (id : string) :
  getPresetById app id = None <-> ~ In id (map preset_id (presets app)).
Proof.
  unfold getPresetById. split.
  - intros H Hin. apply in_map_iff in Hin as (p & Hp & Hin).
    apply (find_none _ _ H) in Hin. rewrite Hp, String.eqb_refl in Hin.
    discriminate.
  - intros H. destruct (find _ (presets app)) as [q|] eqn:E; [|reflexivity].
    exfalso. apply find_some in E as [Hq E]. apply String.eqb_eq in E.
    apply H. rewrite <- E. now apply in_map.
Qed.

Lemma selectedPresets_nil_iff (app : Form) :
  selectedPresets app = []
  <-> forall id, In id (checkedPresetIds app) ->
        ~ In id (map preset_id (presets app)).
Proof.
  unfold selectedPresets, getSelectedPresets.
  induction (checkedPresetIds app) as [|id ids IH]; [now split|].
  cbn [flat_map]. split.
  - intros H. apply app_eq_nil in H as [H1 H2]. intros i [<-|Hi].
    + apply getPresetById_none_iff.
      now destruct (getPresetById app id).
    + now apply IH.
  - intros H.
    assert (getPresetById app id = None) as ->
      by (apply getPresetById_none_iff, H; now left).
    apply IH. intros i Hi. apply H. now right.
Qed.

(** X8: with a valid name, in preset mode, [validateForm] rejects the form
    with the ingredient message exactly when no checked identifier is that
    of a loaded preset and the additional text has no token, which is
    exactly when [collectAllIngredients] returns the empty list; in every
    other case it accepts the form. *)
Theorem ingredient_check_fails_iff (form : LabelForm)
    (Hname : (2 <= String.length (Js.trim (labelName form)))%nat)
    (Hmode : creationMode form = "preset") :
  let app := ingredientForm form in
  let nothing :=
    (forall id, In id (checkedPresetIds app) ->
       ~ In id (map preset_id (presets app)))
    /\ additionalTokens (additionalIngredients app) = [] in
  (collectAllIngredients app = [] <-> nothing)
  /\ (validateForm form
      = Invalid PresetSelectError
          "Please select at least one ingredient or add ingredients manually"
      <-> nothing)
  /\ (validateForm form = Valid <-> ~ nothing).
Proof.
  intros app nothing.
  assert (collectAllIngredients app = [] <-> nothing) as Hiff.
  { unfold nothing. rewrite collectAllIngredients_empty_iff.
    now rewrite selectedPresets_nil_iff. }
  split; [exact Hiff|]. rewrite <- Hiff.
  unfold validateForm. fold app.
  destruct (String.eqb_spec (Js.trim (labelName form)) "") as [E|_];
    [rewrite E in Hname; simpl in Hname; lia|].
  destruct (Nat.ltb_spec (String.length (Js.trim (labelName form))) 2);
    [lia|].
  rewrite Hmode. cbn [String.eqb Ascii.eqb Bool.eqb].
  destruct (collectAllIngredients app) as [|x rest]; cbn [List.length Nat.eqb].
  - split; split; try reflexivity; try discriminate.
    intros Hno. now contradiction Hno.
  - split; split; try reflexivity; try discriminate.
Qed.

Lemma ingredient_check_fails_iff_witness :
  validateForm (mkLabelForm "preset" "Cookies" ""
                  (mkForm (presets sampleForm) ["p9"] " , "))
  = Invalid PresetSelectError
      "Please select at least one ingredient or add ingredients manually".
Proof.
  apply (proj1 (proj2 (ingredient_check_fails_iff
           (mkLabelForm "preset" "Cookies" ""
              (mkForm (presets sampleForm) ["p9"] " , "))
           ltac:(simpl; lia) eq_refl))).
  split.
  - intros id [<-|[]]. simpl. intuition discriminate.
  - reflexivity.
Defined.
